(** * LS-8 emulator: a shallow embedding of [ls8/cpu.py]

    The machine state of the Python class [CPU] is a record; its methods are
    computations in a small state-and-exception monad.  Python integers are
    unbounded, so every cell is a [Z]; Python list indexing accepts negative
    indices and raises [IndexError] out of range; a dictionary lookup with a
    missing key raises [KeyError]; the decimal text of an integer with too
    many digits raises [ValueError]. *)

From stdpp Require Import base option list gmap strings pretty.
From Stdlib Require Import ZArith Lia.
From Stdlib Require Hexadecimal.

Local Open Scope Z_scope.

(** ** Op codes (cpu.py, lines 6-18) *)

Definition LDI  : Z := 130. (* 0b10000010 *)
Definition PRN  : Z := 71.  (* 0b01000111 *)
Definition MUL  : Z := 162. (* 0b10100010 *)
Definition HLT  : Z := 1.   (* 0b00000001 *)
Definition PUSH : Z := 69.  (* 0b01000101 *)
Definition POP  : Z := 70.  (* 0b01000110 *)
Definition CALL : Z := 80.  (* 0b01010000 *)
Definition RET  : Z := 17.  (* 0b00010001 *)
Definition ADD  : Z := 160. (* 0b10100000 *)
Definition CMP  : Z := 167. (* 0b10100111 *)
Definition JMP  : Z := 84.  (* 0b01010100 *)
Definition JEQ  : Z := 85.  (* 0b01010101 *)
Definition JNE  : Z := 86.  (* 0b01010110 *)

(** ** Host language: exceptions and list indexing *)

Inductive exn : Type :=
  | IndexError
  | KeyError (key : Z)
  | ValueError
  | OSError
  | Exception_ (msg : string)
  | SystemExit (code : Z).

Inductive result (A : Type) : Type :=
  | Ok (a : A)
  | Raise (e : exn).
Arguments Ok {A} a.
Arguments Raise {A} e.

Global Instance exn_eq_dec : EqDecision exn.
Proof. solve_decision. Defined.

(** The position a Python index [i] denotes in a list of length [n]:
    [0 <= i < n] is itself, [-n <= i < 0] counts from the end, anything else
    is out of range. *)
Definition py_index (n : nat) (i : Z) : option nat :=
  if decide (0 ≤ i < Z.of_nat n) then Some (Z.to_nat i)
  else if decide (- Z.of_nat n ≤ i < 0) then Some (Z.to_nat (Z.of_nat n + i))
  else None.

(** [l[i]] *)
Definition getitem (l : list Z) (i : Z) : result Z :=
  match py_index (length l) i with
  | Some n => match l !! n with Some v => Ok v | None => Raise IndexError end
  | None => Raise IndexError
  end.

(** [l[i] = v] *)
Definition setitem (l : list Z) (i v : Z) : result (list Z) :=
  match py_index (length l) i with
  | Some n => Ok (<[n := v]> l)
  | None => Raise IndexError
  end.

(** ** Machine state *)

(** The bound methods stored in [self.branchtable]. *)
Inductive Handler : Type :=
  | h_ldi | h_prn | h_mul | h_hlt | h_push | h_pop | h_call | h_ret
  | h_add | h_compare | h_jmp | h_jeq | h_jne.

(** The mutable attributes of a [CPU] object, and the lines written to the
    standard output so far.  [self.SP] and [self.branchtable] are assigned in
    [__init__] only and are the constants [SP] and [branchtable] below. *)
Record CPU : Type := mkCPU {
  running : bool;
  ram : list Z;
  reg : list Z;
  PC : Z;
  FL : Z;
  stdout : list string
}.

Definition set_running (b : bool) (s : CPU) : CPU :=
  mkCPU b (ram s) (reg s) (PC s) (FL s) (stdout s).
Definition set_ram (m : list Z) (s : CPU) : CPU :=
  mkCPU (running s) m (reg s) (PC s) (FL s) (stdout s).
Definition set_reg (r : list Z) (s : CPU) : CPU :=
  mkCPU (running s) (ram s) r (PC s) (FL s) (stdout s).
Definition set_PC (pc : Z) (s : CPU) : CPU :=
  mkCPU (running s) (ram s) (reg s) pc (FL s) (stdout s).
Definition set_FL (fl : Z) (s : CPU) : CPU :=
  mkCPU (running s) (ram s) (reg s) (PC s) fl (stdout s).
Definition set_stdout (o : list string) (s : CPU) : CPU :=
  mkCPU (running s) (ram s) (reg s) (PC s) (FL s) o.

(** ** The monad of methods: state that survives a raised exception *)

Definition M (A : Type) : Type := CPU → result A * CPU.

Global Instance M_ret : MRet M := λ A a s, (Ok a, s).
Global Instance M_bind : MBind M := λ A B k m s,
  match m s with
  | (Ok a, s') => k a s'
  | (Raise e, s') => (Raise e, s')
  end.

Definition raise {A : Type} (e : exn) : M A := λ s, (Raise e, s).
Definition gets {A : Type} (f : CPU → A) : M A := λ s, (Ok (f s), s).
Definition modify (f : CPU → CPU) : M unit := λ s, (Ok tt, f s).
Definition lift {A : Type} (r : result A) : M A := λ s, (r, s).

(** [self.ram[MAR]] and [self.ram[MAR] = MDR] *)
Definition ram_read (MAR : Z) : M Z :=
  m ← gets ram; lift (getitem m MAR).
Definition ram_write (MAR MDR : Z) : M unit :=
  m ← gets ram; m' ← lift (setitem m MAR MDR); modify (set_ram m').

(** [self.reg[r]] and [self.reg[r] = v] *)
Definition reg_read (r : Z) : M Z :=
  rs ← gets reg; lift (getitem rs r).
Definition reg_write (r v : Z) : M unit :=
  rs ← gets reg; rs' ← lift (setitem rs r v); modify (set_reg rs').

(** [self.PC += n] *)
Definition advance (n : Z) : M unit :=
  pc ← gets PC; modify (set_PC (pc + n)).

(** [print(line)] *)
Definition print (line : string) : M unit :=
  modify (λ s, set_stdout (stdout s ++ [line]) s).

(** [sys.int_info.default_max_str_digits] *)
Definition int_max_str_digits : Z := 4300.

(** [str(n)] of an int, as [print] and f-strings apply it: the decimal
    numeral, or [ValueError] when it has more digits than the interpreter's
    limit; the sign is not counted, so the numerals within the limit are
    those of the integers below [10 ^ 4300] in absolute value. *)
Definition str (n : Z) : M string :=
  if decide (Z.abs n < 10 ^ int_max_str_digits)
  then mret (pretty n)
  else raise ValueError.

(** ** Construction (cpu.py, lines 23-54) *)

(** [self.SP = len(self.reg) - 1] *)
Definition SP : Z := Z.of_nat (length (replicate 8 0)) - 1.

Definition init : CPU :=
  let ram0 := replicate 256 0 in
  let reg0 := replicate 8 0 in
  mkCPU true ram0
        (match setitem reg0 SP (Z.of_nat (length ram0) - 1) with
         | Ok r => r
         | Raise _ => reg0
         end)
        0 0 [].

Definition branchtable : gmap Z Handler :=
  <[JNE := h_jne]> (<[JEQ := h_jeq]> (<[JMP := h_jmp]> (<[CMP := h_compare]>
  (<[ADD := h_add]> (<[RET := h_ret]> (<[CALL := h_call]> (<[POP := h_pop]>
  (<[PUSH := h_push]> (<[HLT := h_hlt]> (<[MUL := h_mul]> (<[PRN := h_prn]>
  (<[LDI := h_ldi]> ∅)))))))))))).

(** ** ALU (cpu.py, lines 175-184) *)

Definition alu (op : string) (reg_a reg_b : Z) : M unit :=
  if decide (op = "ADD") then
    a ← reg_read reg_a; b ← reg_read reg_b; reg_write reg_a (a + b)
  else if decide (op = "CMP") then
    a ← reg_read reg_a; b ← reg_read reg_b;
    if decide (a = b) then modify (set_FL 1) else mret tt
  else raise (Exception_ "Unsupported ALU operation").

(** ** Op functions (cpu.py, lines 58-145) *)

Definition ldi : M unit :=
  pc ← gets PC; operand_a ← ram_read (pc + 1);
  pc ← gets PC; operand_b ← ram_read (pc + 2);
  reg_write operand_a operand_b;;
  advance 3.

Definition prn : M unit :=
  pc ← gets PC; print_val ← ram_read (pc + 1);
  v ← reg_read print_val; line ← str v; print line;;
  advance 2.

Definition mul : M unit :=
  pc ← gets PC; operand_a ← ram_read (pc + 1);
  pc ← gets PC; operand_b ← ram_read (pc + 2);
  a ← reg_read operand_a; text_a ← str a;
  b ← reg_read operand_b; text_b ← str b;
  print (text_a +:+ " * " +:+ text_b +:+ " =");;
  a ← reg_read operand_a; b ← reg_read operand_b;
  reg_write operand_a (a * b);;
  advance 3.

Definition hlt : M unit :=
  modify (set_running false);;
  advance 1.

Definition push : M unit :=
  pc ← gets PC; register ← ram_read (pc + 1);
  sp ← reg_read SP; reg_write SP (sp - 1);;
  reg_value ← reg_read register;
  sp ← reg_read SP; ram_write sp reg_value;;
  advance 2.

Definition pop : M unit :=
  sp ← reg_read SP; value ← ram_read sp;
  pc ← gets PC; register ← ram_read (pc + 1);
  reg_write register value;;
  sp ← reg_read SP; reg_write SP (sp + 1);;
  advance 2.

Definition call : M unit :=
  sp ← reg_read SP; reg_write SP (sp - 1);;
  pc ← gets PC; sp ← reg_read SP; ram_write sp (pc + 2);;
  pc ← gets PC; register ← ram_read (pc + 1);
  target ← reg_read register; modify (set_PC target).

Definition ret : M unit :=
  sp ← reg_read SP; return_address ← ram_read sp;
  sp ← reg_read SP; reg_write SP (sp + 1);;
  modify (set_PC return_address).

Definition add : M unit :=
  pc ← gets PC; reg1 ← ram_read (pc + 1);
  pc ← gets PC; reg2 ← ram_read (pc + 2);
  alu "ADD" reg1 reg2;;
  advance 3.

Definition compare : M unit :=
  pc ← gets PC; reg1 ← ram_read (pc + 1);
  pc ← gets PC; reg2 ← ram_read (pc + 2);
  alu "CMP" reg1 reg2;;
  advance 3.

Definition jmp : M unit :=
  pc ← gets PC; register ← ram_read (pc + 1);
  target ← reg_read register; modify (set_PC target).

Definition jeq : M unit :=
  pc ← gets PC; register ← ram_read (pc + 1);
  fl ← gets FL;
  if decide (Z.land fl 1 = 1) then
    target ← reg_read register; modify (set_PC target)
  else advance 2.

Definition jne : M unit :=
  pc ← gets PC; register ← ram_read (pc + 1);
  fl ← gets FL;
  if decide (Z.land fl 1 = 0) then
    target ← reg_read register; modify (set_PC target)
  else advance 2.

(** Calling a bound method of the branch table. *)
Definition invoke (h : Handler) : M unit :=
  match h with
  | h_ldi => ldi | h_prn => prn | h_mul => mul | h_hlt => hlt
  | h_push => push | h_pop => pop | h_call => call | h_ret => ret
  | h_add => add | h_compare => compare
  | h_jmp => jmp | h_jeq => jeq | h_jne => jne
  end.

(** The truth value of a bound method in an [if]: always true. *)
Definition truthy (h : Handler) : bool := true.

(** ** Trace (cpu.py, lines 186-204) *)

(** Upper-case hexadecimal digits, most significant first. *)
Fixpoint hex_upper (d : Hexadecimal.uint) : string :=
  match d with
  | Hexadecimal.Nil => ""
  | Hexadecimal.D0 d => "0" +:+ hex_upper d
  | Hexadecimal.D1 d => "1" +:+ hex_upper d
  | Hexadecimal.D2 d => "2" +:+ hex_upper d
  | Hexadecimal.D3 d => "3" +:+ hex_upper d
  | Hexadecimal.D4 d => "4" +:+ hex_upper d
  | Hexadecimal.D5 d => "5" +:+ hex_upper d
  | Hexadecimal.D6 d => "6" +:+ hex_upper d
  | Hexadecimal.D7 d => "7" +:+ hex_upper d
  | Hexadecimal.D8 d => "8" +:+ hex_upper d
  | Hexadecimal.D9 d => "9" +:+ hex_upper d
  | Hexadecimal.Da d => "A" +:+ hex_upper d
  | Hexadecimal.Db d => "B" +:+ hex_upper d
  | Hexadecimal.Dc d => "C" +:+ hex_upper d
  | Hexadecimal.Dd d => "D" +:+ hex_upper d
  | Hexadecimal.De d => "E" +:+ hex_upper d
  | Hexadecimal.Df d => "F" +:+ hex_upper d
  end.

(** ["%02X" % n]: upper-case hexadecimal, zero-padded to two characters, the
    sign of a negative number counting as one of them. *)
Definition format_02X (n : Z) : string :=
  let digits := hex_upper (N.to_hex_uint (Z.to_N (Z.abs n))) in
  if decide (n < 0) then "-" +:+ digits
  else if decide (String.length digits < 2)%nat then "0" +:+ digits
  else digits.

(** The loop [for i in range(8): print(" %02X" % self.reg[i], end='')],
    returning the text it writes. *)
Fixpoint trace_registers (indices : list Z) : M string :=
  match indices with
  | [] => mret ""
  | i :: rest =>
      v ← reg_read i;
      text ← trace_registers rest;
      mret (" " +:+ format_02X v +:+ text)
  end.

(** [trace] writes its pieces with [end=''] and ends the line with a bare
    [print()]; the pieces are gathered here and the finished line is
    printed. *)
Definition trace : M unit :=
  pc ← gets PC;
  b0 ← ram_read pc;
  pc1 ← gets PC; b1 ← ram_read (pc1 + 1);
  pc2 ← gets PC; b2 ← ram_read (pc2 + 2);
  registers ← trace_registers (seqZ 0 8);
  print ("TRACE: " +:+ format_02X pc +:+ " | " +:+ format_02X b0 +:+ " "
         +:+ format_02X b1 +:+ " " +:+ format_02X b2 +:+ " |" +:+ registers).

(** ** Loading (cpu.py, lines 149-173)

    Reading the file and turning a line of text into an integer are the
    host's work and are taken as given: [load] receives what [open(filename)]
    and, for each line that is not skipped, [int(instruction, 2)] produce,
    a value or the exception raised. *)

(** The loop's effect on memory for lines that all convert:
    [self.ram[address] = instruction_int; address += 1]. *)
Fixpoint load_from (address : Z) (program : list Z) : M unit :=
  match program with
  | [] => mret tt
  | instruction_int :: rest =>
      ram_write address instruction_int;;
      load_from (address + 1) rest
  end.

(** The loop over the lines that are not skipped, each with the outcome of
    its conversion. *)
Fixpoint load_lines (address : Z) (lines : list (result Z)) : M unit :=
  match lines with
  | [] => mret tt
  | converted :: rest =>
      instruction_int ← lift converted;
      ram_write address instruction_int;;
      load_lines (address + 1) rest
  end.

Definition load (argv : list string) (file : result (list (result Z)))
    : M unit :=
  if decide (length argv ≠ 2%nat) then
    print "Need proper file name passed in.";;
    raise (SystemExit 1)
  else
    match argv !! 1%nat with
    | None => raise IndexError
    | Some filename =>
        print ("Filename: " +:+ filename);;
        lines ← lift file;
        load_lines 0 lines
    end.

(** ** Run loop (cpu.py, lines 212-223) *)

(** One iteration of the body of [while self.running]. *)
Definition step : M unit :=
  pc ← gets PC; IR ← ram_read pc;
  match branchtable !! IR with
  | None => raise (KeyError IR)
  | Some h =>
      if truthy h then invoke h
      else
        print (pretty IR +:+ " - command is not available");;
        raise (SystemExit 1)
  end.

(** How a call of [run] ends: it returns, an exception leaves it, or the
    model's budget of iterations is used up. *)
Inductive outcome : Type :=
  | Returned
  | Raised (e : exn)
  | OutOfFuel.

Global Instance outcome_eq_dec : EqDecision outcome.
Proof. solve_decision. Defined.

Fixpoint run (fuel : nat) (s : CPU) : outcome * CPU :=
  if running s then
    match fuel with
    | O => (OutOfFuel, s)
    | S fuel' =>
        match step s with
        | (Ok _, s') => run fuel' s'
        | (Raise e, s') => (Raised e, s')
        end
    end
  else (Returned, s).

(** A freshly constructed machine with [program] loaded at address 0: the
    memory effect of a load whose lines all convert.  What [load] itself
    prints is not part of it; the output is that of the run. *)
Definition boot (program : list Z) : result unit * CPU :=
  load_from 0 program init.

Definition run_program (fuel : nat) (program : list Z) : outcome * CPU :=
  match boot program with
  | (Ok _, s) => run fuel s
  | (Raise e, s) => (Raised e, s)
  end.

(** ** Vocabulary of the statements *)

(** Well-formed machines: the two lists keep the lengths [__init__] gave
    them, since item assignment never resizes a list. *)
Definition wf (s : CPU) : Prop :=
  length (ram s) = 256%nat ∧ length (reg s) = 8%nat.

(** The cells of [m] from address [a] on hold [bytes]. *)
Definition code_at (m : list Z) (a : Z) (bytes : list Z) : Prop :=
  ∀ (i : nat) (b : Z), bytes !! i = Some b → getitem m (a + Z.of_nat i) = Ok b.

(** Everything but PC is as it was. *)
Definition same_but_PC (s s' : CPU) : Prop :=
  ram s' = ram s ∧ reg s' = reg s ∧ FL s' = FL s ∧
  running s' = running s ∧ stdout s' = stdout s.

(** The Equal bit of the flags byte [00000LGE]. *)
Definition equal_flag (s : CPU) : bool := Z.testbit (FL s) 0.

(** What the caller of [run] observes of a run: how it ended and what was
    printed. *)
Definition observable (r : outcome * CPU) : outcome * list string :=
  (r.1, stdout r.2).

(** Whether a run ended in the ALU's own exception. *)
Definition alu_fault (o : outcome) : bool :=
  bool_decide (o = Raised (Exception_ "Unsupported ALU operation")).

(** A method that can only fail with [IndexError] or [ValueError]. *)
Definition raises_only_host_errors {A : Type} (m : M A) : Prop :=
  ∀ s e s', m s = (Raise e, s') → e = IndexError ∨ e = ValueError.

(** [LDI R0,8; LDI R1,9; MUL R0,R1; PRN R0; HLT] *)
Definition mult_program : list Z :=
  [LDI; 0; 8; LDI; 1; 9; MUL; 0; 1; PRN; 0; HLT].

(** A full 256-byte image: [LDI R0,253; JMP R0], zeros, and [LDI R1,7] in the
    last three cells. *)
Definition edge_program : list Z :=
  [LDI; 0; 253; JMP; 0] ++ replicate 248 0 ++ [LDI; 1; 7].

(** ** Frame conditions *)

(** Every result of [m], returned or raised, leaves the two states related
    by [R]. *)
Definition preserves {A : Type} (R : relation CPU) (m : M A) : Prop :=
  ∀ s r s', m s = (r, s') → R s s'.

(** Every returned result of [m] leaves the two states related by [R]. *)
Definition ensures {A : Type} (R : relation CPU) (m : M A) : Prop :=
  ∀ s a s', m s = (Ok a, s') → R s s'.

(** The attribute [f] is as it was. *)
Definition same {B : Type} (f : CPU → B) : relation CPU :=
  λ s s', f s' = f s.

(** Memory and register file keep their lengths. *)
Definition same_shape : relation CPU :=
  λ s s', length (ram s') = length (ram s) ∧ length (reg s') = length (reg s).

(** The flags byte is as it was, or is exactly [0b00000001]. *)
Definition flags_kept_or_equal : relation CPU :=
  λ s s', FL s' = FL s ∨ FL s' = 1.

(** Output is only ever appended. *)
Definition output_extends : relation CPU :=
  λ s s', stdout s `prefix_of` stdout s'.

(** [PC] moved forward by [n]. *)
Definition pc_advanced (n : Z) : relation CPU :=
  λ s s', PC s' = PC s + n.

(** The encoded length of the instructions that advance PC relatively. *)
Definition instruction_length (op : Z) : option Z :=
  if decide (op ∈ [LDI; MUL; ADD; CMP]) then Some 3
  else if decide (op ∈ [PRN; PUSH; POP]) then Some 2
  else if decide (op = HLT) then Some 1
  else None.

(** * Properties *)

(** ** Python indexing *)

Lemma py_index_lt (n : nat) (i : Z) (k : nat) :
  py_index n i = Some k → (k < n)%nat.
Proof.
  unfold py_index. repeat case_decide; intros; simplify_eq; lia.
Qed.

Lemma py_index_Some_iff (n : nat) (i : Z) :
  is_Some (py_index n i) ↔ - Z.of_nat n ≤ i < Z.of_nat n.
Proof.
  unfold py_index. repeat case_decide; split; intros H'; try lia; eauto.
  destruct H' as [? ?]. discriminate.
Qed.

Lemma py_index_None_iff (n : nat) (i : Z) :
  py_index n i = None ↔ ¬ (- Z.of_nat n ≤ i < Z.of_nat n).
Proof.
  rewrite eq_None_not_Some, py_index_Some_iff. done.
Qed.

Lemma getitem_Ok_index (l : list Z) (i v : Z) :
  getitem l i = Ok v ↔ ∃ k, py_index (length l) i = Some k ∧ l !! k = Some v.
Proof.
  unfold getitem. split.
  - destruct (py_index (length l) i) as [k|]; [|done].
    destruct (l !! k) eqn:E; [|done]. intros [= ->]. eauto.
  - intros (k & -> & ->). done.
Qed.

Lemma getitem_total (l : list Z) (i : Z) :
  - Z.of_nat (length l) ≤ i < Z.of_nat (length l) → ∃ v, getitem l i = Ok v.
Proof.
  intros Hi. apply py_index_Some_iff in Hi as [k Hk].
  destruct (lookup_lt_is_Some_2 l k) as [v Hv]; [by eapply py_index_lt|].
  exists v. apply getitem_Ok_index. eauto.
Qed.

Lemma getitem_range (l : list Z) (i v : Z) :
  getitem l i = Ok v → - Z.of_nat (length l) ≤ i < Z.of_nat (length l).
Proof.
  intros (k & Hk & _)%getitem_Ok_index. apply py_index_Some_iff. eauto.
Qed.

Lemma getitem_out_of_range (l : list Z) (i : Z) :
  ¬ (- Z.of_nat (length l) ≤ i < Z.of_nat (length l)) →
  getitem l i = Raise IndexError.
Proof.
  intros Hi%py_index_None_iff. unfold getitem. by rewrite Hi.
Qed.

Lemma setitem_out_of_range (l : list Z) (i v : Z) :
  ¬ (- Z.of_nat (length l) ≤ i < Z.of_nat (length l)) →
  setitem l i v = Raise IndexError.
Proof.
  intros Hi%py_index_None_iff. unfold setitem. by rewrite Hi.
Qed.

Lemma getitem_raises (l : list Z) (i : Z) (e : exn) :
  getitem l i = Raise e → e = IndexError.
Proof.
  unfold getitem. repeat case_match; congruence.
Qed.

Lemma setitem_raises (l : list Z) (i v : Z) (e : exn) :
  setitem l i v = Raise e → e = IndexError.
Proof.
  unfold setitem. repeat case_match; congruence.
Qed.

Lemma setitem_Ok_index (l l' : list Z) (i v : Z) :
  setitem l i v = Ok l' ↔ ∃ k, py_index (length l) i = Some k ∧ l' = <[k := v]> l.
Proof.
  unfold setitem. split.
  - destruct (py_index (length l) i) as [k|]; [|done]. intros [= <-]. eauto.
  - intros (k & -> & ->). done.
Qed.

Lemma setitem_total (l : list Z) (i v : Z) :
  - Z.of_nat (length l) ≤ i < Z.of_nat (length l) → ∃ l', setitem l i v = Ok l'.
Proof.
  intros Hi. apply py_index_Some_iff in Hi as [k Hk].
  exists (<[k := v]> l). apply setitem_Ok_index. eauto.
Qed.

Lemma setitem_length (l l' : list Z) (i v : Z) :
  setitem l i v = Ok l' → length l' = length l.
Proof.
  intros (k & _ & ->)%setitem_Ok_index. apply length_insert.
Qed.

Lemma getitem_setitem_eq (l l' : list Z) (i v : Z) :
  setitem l i v = Ok l' → getitem l' i = Ok v.
Proof.
  intros (k & Hk & ->)%setitem_Ok_index.
  apply getitem_Ok_index. exists k. rewrite length_insert. split; [done|].
  apply list_lookup_insert_eq. by eapply py_index_lt.
Qed.

Lemma getitem_setitem_ne (l l' : list Z) (i j v : Z) :
  setitem l i v = Ok l' →
  py_index (length l) j ≠ py_index (length l) i →
  getitem l' j = getitem l j.
Proof.
  intros (k & Hk & ->)%setitem_Ok_index Hne.
  unfold getitem. rewrite length_insert.
  destruct (py_index (length l) j) as [kj|]; [|done].
  rewrite list_lookup_insert_ne; [done|]. congruence.
Qed.

Lemma setitem_getitem_id (l : list Z) (i v : Z) :
  getitem l i = Ok v → setitem l i v = Ok l.
Proof.
  intros (k & Hk & Hv)%getitem_Ok_index.
  apply setitem_Ok_index. exists k. split; [done|].
  symmetry. by apply list_insert_id.
Qed.

Lemma setitem_setitem (l l' : list Z) (i v w : Z) :
  setitem l i v = Ok l' → setitem l' i w = setitem l i w.
Proof.
  intros (k & Hk & ->)%setitem_Ok_index.
  unfold setitem. rewrite length_insert, Hk. f_equal.
  apply list_insert_insert_eq.
Qed.

(** Two indices in [0, n) denote the same position only if they are equal. *)
Lemma py_index_nonneg_inj (n : nat) (i j : Z) :
  0 ≤ i < Z.of_nat n → 0 ≤ j < Z.of_nat n → i ≠ j →
  py_index n i ≠ py_index n j.
Proof.
  intros Hi Hj Hne. unfold py_index.
  rewrite !decide_True by done. intros [= E]. lia.
Qed.

(** ** Well-formed machines *)

Lemma SP_eq : SP = 7.
Proof. reflexivity. Qed.

Lemma wf_init : wf init.
Proof. split; reflexivity. Qed.

(** ** Running the monad *)

Lemma bind_Ok {A B : Type} (m : M A) (k : A → M B) (s s' : CPU) (a : A) :
  m s = (Ok a, s') → (m ≫= k) s = k a s'.
Proof. intros H. unfold mbind, M_bind. by rewrite H. Qed.

Lemma bind_Raise {A B : Type} (m : M A) (k : A → M B) (s s' : CPU) (e : exn) :
  m s = (Raise e, s') → (m ≫= k) s = (Raise e, s').
Proof. intros H. unfold mbind, M_bind. by rewrite H. Qed.

Lemma ram_read_Ok (a v : Z) (s : CPU) :
  getitem (ram s) a = Ok v → ram_read a s = (Ok v, s).
Proof. intros H. unfold ram_read, gets, lift, mbind, M_bind. by rewrite H. Qed.

Lemma reg_read_Ok (r v : Z) (s : CPU) :
  getitem (reg s) r = Ok v → reg_read r s = (Ok v, s).
Proof. intros H. unfold reg_read, gets, lift, mbind, M_bind. by rewrite H. Qed.

Lemma ram_write_Ok (a v : Z) (m' : list Z) (s : CPU) :
  setitem (ram s) a v = Ok m' → ram_write a v s = (Ok tt, set_ram m' s).
Proof.
  intros H. unfold ram_write, gets, lift, modify, mbind, M_bind. by rewrite H.
Qed.

Lemma reg_write_Ok (r v : Z) (rs' : list Z) (s : CPU) :
  setitem (reg s) r v = Ok rs' → reg_write r v s = (Ok tt, set_reg rs' s).
Proof.
  intros H. unfold reg_write, gets, lift, modify, mbind, M_bind. by rewrite H.
Qed.

Lemma ram_read_Raise (a : Z) (s : CPU) :
  getitem (ram s) a = Raise IndexError → ram_read a s = (Raise IndexError, s).
Proof. intros H. unfold ram_read, gets, lift, mbind, M_bind. by rewrite H. Qed.

Lemma reg_read_Raise (r : Z) (s : CPU) :
  getitem (reg s) r = Raise IndexError → reg_read r s = (Raise IndexError, s).
Proof. intros H. unfold reg_read, gets, lift, mbind, M_bind. by rewrite H. Qed.

Lemma reg_write_Raise (r v : Z) (s : CPU) :
  setitem (reg s) r v = Raise IndexError →
  reg_write r v s = (Raise IndexError, s).
Proof.
  intros H. unfold reg_write, gets, lift, modify, mbind, M_bind. by rewrite H.
Qed.

(** Peel one bind whose first computation is known to succeed. *)
Ltac mstep :=
  first
    [ erewrite bind_Ok; [| first
        [ apply ram_read_Ok; eassumption
        | apply reg_read_Ok; eassumption
        | apply ram_write_Ok; eassumption
        | apply reg_write_Ok; eassumption
        | reflexivity ] ]
    | first
        [ erewrite ram_read_Ok by eassumption
        | erewrite reg_read_Ok by eassumption
        | erewrite ram_write_Ok by eassumption
        | erewrite reg_write_Ok by eassumption ] ];
  cbn [ram reg PC FL stdout running set_ram set_reg set_PC set_FL set_stdout
       set_running].

Ltac msteps := repeat mstep.

(** ** The handlers as state transformers *)

Lemma ldi_eq (s : CPU) (r v : Z) (rs' : list Z) :
  getitem (ram s) (PC s + 1) = Ok r →
  getitem (ram s) (PC s + 2) = Ok v →
  setitem (reg s) r v = Ok rs' →
  ldi s = (Ok tt, set_PC (PC s + 3) (set_reg rs' s)).
Proof.
  intros Ha Hb Hw. unfold ldi, advance, gets. msteps. reflexivity.
Qed.

Lemma alu_add_eq (s : CPU) (rA rB a b : Z) (rs' : list Z) :
  getitem (reg s) rA = Ok a →
  getitem (reg s) rB = Ok b →
  setitem (reg s) rA (a + b) = Ok rs' →
  alu "ADD" rA rB s = (Ok tt, set_reg rs' s).
Proof.
  intros Ha Hb Hw. unfold alu. rewrite decide_True by done.
  msteps. reflexivity.
Qed.

Lemma add_eq (s : CPU) (rA rB a b : Z) (rs' : list Z) :
  getitem (ram s) (PC s + 1) = Ok rA →
  getitem (ram s) (PC s + 2) = Ok rB →
  getitem (reg s) rA = Ok a →
  getitem (reg s) rB = Ok b →
  setitem (reg s) rA (a + b) = Ok rs' →
  add s = (Ok tt, set_PC (PC s + 3) (set_reg rs' s)).
Proof.
  intros HA HB Ha Hb Hw. unfold add, advance, gets. msteps.
  erewrite bind_Ok by (eapply alu_add_eq; eassumption).
  reflexivity.
Qed.

Lemma str_Ok (n : Z) (s : CPU) :
  Z.abs n < 10 ^ int_max_str_digits →
  str n s = (Ok (pretty n), s).
Proof. intros H. unfold str. by rewrite decide_True. Qed.

Lemma str_Raise (n : Z) (s : CPU) :
  ¬ Z.abs n < 10 ^ int_max_str_digits →
  str n s = (Raise ValueError, s).
Proof. intros H. unfold str. by rewrite decide_False. Qed.

Lemma mul_eq (s : CPU) (rA rB a b : Z) (rs' : list Z) :
  getitem (ram s) (PC s + 1) = Ok rA →
  getitem (ram s) (PC s + 2) = Ok rB →
  getitem (reg s) rA = Ok a →
  getitem (reg s) rB = Ok b →
  Z.abs a < 10 ^ int_max_str_digits →
  Z.abs b < 10 ^ int_max_str_digits →
  setitem (reg s) rA (a * b) = Ok rs' →
  mul s =
    (Ok tt,
     set_PC (PC s + 3)
       (set_reg rs'
          (set_stdout
             (stdout s ++ [pretty a +:+ " * " +:+ pretty b +:+ " ="]) s))).
Proof.
  intros HA HB Ha Hb Hda Hdb Hw. unfold mul, advance, print, gets, modify.
  msteps. erewrite bind_Ok by (by apply str_Ok). msteps.
  erewrite bind_Ok by (by apply str_Ok). msteps.
  reflexivity.
Qed.

Lemma prn_eq (s : CPU) (r v : Z) :
  getitem (ram s) (PC s + 1) = Ok r →
  getitem (reg s) r = Ok v →
  Z.abs v < 10 ^ int_max_str_digits →
  prn s = (Ok tt, set_PC (PC s + 2) (set_stdout (stdout s ++ [pretty v]) s)).
Proof.
  intros HA Ha Hd. unfold prn, advance, print, gets, modify. msteps.
  erewrite bind_Ok by (by apply str_Ok). reflexivity.
Qed.

Lemma hlt_eq (s : CPU) :
  hlt s = (Ok tt, set_PC (PC s + 1) (set_running false s)).
Proof. reflexivity. Qed.

Lemma alu_cmp_eq (s : CPU) (rA rB a b : Z) :
  getitem (reg s) rA = Ok a →
  getitem (reg s) rB = Ok b →
  alu "CMP" rA rB s = (Ok tt, if decide (a = b) then set_FL 1 s else s).
Proof.
  intros Ha Hb. unfold alu.
  rewrite decide_False by done. rewrite decide_True by done.
  msteps. destruct (decide (a = b)); reflexivity.
Qed.

Lemma compare_eq (s : CPU) (rA rB a b : Z) :
  getitem (ram s) (PC s + 1) = Ok rA →
  getitem (ram s) (PC s + 2) = Ok rB →
  getitem (reg s) rA = Ok a →
  getitem (reg s) rB = Ok b →
  compare s =
    (Ok tt, set_PC (PC s + 3) (if decide (a = b) then set_FL 1 s else s)).
Proof.
  intros HA HB Ha Hb. unfold compare, advance, gets. msteps.
  erewrite bind_Ok by (eapply alu_cmp_eq; eassumption).
  destruct (decide (a = b)); reflexivity.
Qed.

Lemma land_1_testbit (fl : Z) :
  (Z.land fl 1 = 1 ↔ Z.testbit fl 0 = true) ∧
  (Z.land fl 1 = 0 ↔ Z.testbit fl 0 = false).
Proof.
  change 1 with (Z.ones 1) at 1 3. rewrite Z.land_ones by lia.
  change (2 ^ 1) with 2. rewrite <- Z.bit0_mod.
  destruct (Z.testbit fl 0); simpl; split; split; intros; congruence.
Qed.

Lemma jeq_taken (s : CPU) (r t : Z) :
  getitem (ram s) (PC s + 1) = Ok r →
  equal_flag s = true →
  getitem (reg s) r = Ok t →
  jeq s = (Ok tt, set_PC t s).
Proof.
  intros Hr Hf Ht. unfold jeq, gets, modify. msteps.
  rewrite decide_True by (by apply land_1_testbit).
  msteps. reflexivity.
Qed.

Lemma jeq_not_taken (s : CPU) (r : Z) :
  getitem (ram s) (PC s + 1) = Ok r →
  equal_flag s = false →
  jeq s = (Ok tt, set_PC (PC s + 2) s).
Proof.
  intros Hr Hf. unfold jeq, advance, gets, modify. msteps.
  rewrite decide_False; [reflexivity|].
  intros E%land_1_testbit. unfold equal_flag in Hf. congruence.
Qed.

Lemma jne_taken (s : CPU) (r t : Z) :
  getitem (ram s) (PC s + 1) = Ok r →
  equal_flag s = false →
  getitem (reg s) r = Ok t →
  jne s = (Ok tt, set_PC t s).
Proof.
  intros Hr Hf Ht. unfold jne, gets, modify. msteps.
  rewrite decide_True by (by apply land_1_testbit).
  msteps. reflexivity.
Qed.

Lemma jne_not_taken (s : CPU) (r : Z) :
  getitem (ram s) (PC s + 1) = Ok r →
  equal_flag s = true →
  jne s = (Ok tt, set_PC (PC s + 2) s).
Proof.
  intros Hr Hf. unfold jne, advance, gets, modify. msteps.
  rewrite decide_False; [reflexivity|].
  intros E%land_1_testbit. unfold equal_flag in Hf. congruence.
Qed.

Lemma push_eq (s : CPU) (r sp v : Z) (rs1 m' : list Z) :
  getitem (ram s) (PC s + 1) = Ok r →
  getitem (reg s) SP = Ok sp →
  setitem (reg s) SP (sp - 1) = Ok rs1 →
  getitem rs1 r = Ok v →
  setitem (ram s) (sp - 1) v = Ok m' →
  push s = (Ok tt, set_PC (PC s + 2) (set_ram m' (set_reg rs1 s))).
Proof.
  intros Hr Hsp Hw Hv Hm.
  pose proof (getitem_setitem_eq _ _ _ _ Hw) as Hsp'.
  unfold push, advance, gets. msteps. reflexivity.
Qed.

Lemma pop_eq (s : CPU) (r sp value sp' : Z) (rs1 rs2 : list Z) :
  getitem (reg s) SP = Ok sp →
  getitem (ram s) sp = Ok value →
  getitem (ram s) (PC s + 1) = Ok r →
  setitem (reg s) r value = Ok rs1 →
  getitem rs1 SP = Ok sp' →
  setitem rs1 SP (sp' + 1) = Ok rs2 →
  pop s = (Ok tt, set_PC (PC s + 2) (set_reg rs2 s)).
Proof.
  intros Hsp Hv Hr Hw Hsp' Hw'.
  unfold pop, advance, gets. msteps. reflexivity.
Qed.

Lemma call_eq (s : CPU) (r sp target : Z) (rs1 m' : list Z) :
  getitem (reg s) SP = Ok sp →
  setitem (reg s) SP (sp - 1) = Ok rs1 →
  setitem (ram s) (sp - 1) (PC s + 2) = Ok m' →
  getitem m' (PC s + 1) = Ok r →
  getitem rs1 r = Ok target →
  call s = (Ok tt, set_PC target (set_ram m' (set_reg rs1 s))).
Proof.
  intros Hsp Hw Hm Hr Ht.
  pose proof (getitem_setitem_eq _ _ _ _ Hw) as Hsp'.
  unfold call, gets, modify. msteps. reflexivity.
Qed.

Lemma ret_eq (s : CPU) (sp return_address : Z) (rs1 : list Z) :
  getitem (reg s) SP = Ok sp →
  getitem (ram s) sp = Ok return_address →
  setitem (reg s) SP (sp + 1) = Ok rs1 →
  ret s = (Ok tt, set_PC return_address (set_reg rs1 s)).
Proof.
  intros Hsp Ha Hw. unfold ret, gets, modify. msteps. reflexivity.
Qed.

Lemma jmp_eq (s : CPU) (r target : Z) :
  getitem (ram s) (PC s + 1) = Ok r →
  getitem (reg s) r = Ok target →
  jmp s = (Ok tt, set_PC target s).
Proof.
  intros Hr Ht. unfold jmp, gets, modify. msteps. reflexivity.
Qed.

(** ** The run loop *)

Lemma step_dispatch (s : CPU) (IR : Z) (h : Handler) :
  getitem (ram s) (PC s) = Ok IR →
  branchtable !! IR = Some h →
  step s = invoke h s.
Proof.
  intros HIR Hh. unfold step, gets. msteps. rewrite Hh. reflexivity.
Qed.

Lemma step_unknown (s : CPU) (IR : Z) :
  getitem (ram s) (PC s) = Ok IR →
  branchtable !! IR = None →
  step s = (Raise (KeyError IR), s).
Proof.
  intros HIR Hh. unfold step, gets. msteps. rewrite Hh. reflexivity.
Qed.

Lemma step_fetch_fails (s : CPU) :
  getitem (ram s) (PC s) = Raise IndexError →
  step s = (Raise IndexError, s).
Proof.
  intros HIR. unfold step, gets.
  erewrite bind_Ok by reflexivity.
  erewrite bind_Raise by (by apply ram_read_Raise). reflexivity.
Qed.

Lemma run_halted (fuel : nat) (s : CPU) :
  running s = false → run fuel s = (Returned, s).
Proof. intros H. destruct fuel; simpl; by rewrite H. Qed.

Lemma run_step_Ok (fuel : nat) (s s' : CPU) :
  running s = true → step s = (Ok tt, s') → run (S fuel) s = run fuel s'.
Proof. intros H Hs. simpl. by rewrite H, Hs. Qed.

Lemma run_step_Raise (fuel : nat) (s s' : CPU) (e : exn) :
  running s = true → step s = (Raise e, s') →
  run (S fuel) s = (Raised e, s').
Proof. intros H Hs. simpl. by rewrite H, Hs. Qed.

(** A run that ended within its budget ends the same way with a larger one. *)
Lemma run_more_fuel (fuel k : nat) (s : CPU) :
  (run fuel s).1 ≠ OutOfFuel → run (fuel + k) s = run fuel s.
Proof.
  revert s. induction fuel as [|fuel IH]; intros s Hne.
  - simpl in Hne. destruct (running s) eqn:E; [done|].
    rewrite !run_halted by done. done.
  - change (S fuel + k)%nat with (S (fuel + k)).
    simpl in *. destruct (running s); [|done].
    destruct (step s) as [[[]|e] s']; [|done]. by apply IH.
Qed.

Lemma branchtable_opcodes (IR : Z) (h : Handler) :
  branchtable !! IR = Some h →
  IR ∈ [LDI; PRN; MUL; HLT; PUSH; POP; CALL; RET; ADD; CMP; JMP; JEQ; JNE].
Proof.
  unfold branchtable. intros H.
  repeat (apply lookup_insert_Some in H as [[<- _]|[_ H]];
          [set_solver|]).
  by rewrite lookup_empty in H.
Qed.

Lemma branchtable_None (IR : Z) :
  IR ∉ [LDI; PRN; MUL; HLT; PUSH; POP; CALL; RET; ADD; CMP; JMP; JEQ; JNE] →
  branchtable !! IR = None.
Proof.
  intros Hn. destruct (branchtable !! IR) as [h|] eqn:E; [|done].
  by apply branchtable_opcodes in E.
Qed.

Lemma run_program_more_fuel (fuel k : nat) (program : list Z) :
  (run_program fuel program).1 ≠ OutOfFuel →
  run_program (fuel + k) program = run_program fuel program.
Proof.
  unfold run_program. destruct (boot program) as [[[]|e] s]; [|done].
  apply run_more_fuel.
Qed.

Lemma run_program_raises_at_once
    (k : nat) (program : list Z) (s0 s' : CPU) (e : exn) :
  boot program = (Ok tt, s0) →
  running s0 = true →
  step s0 = (Raise e, s') →
  run_program (S k) program = (Raised e, s').
Proof.
  intros Hb Hr Hs. unfold run_program. rewrite Hb.
  by apply run_step_Raise.
Qed.

(** A loaded program whose first instruction raises: boot and fetch are
    computed, [tac] names the handler lemma, its operand reads are computed,
    and the remaining side condition is left to the caller. *)
Ltac first_step_raises tac :=
  erewrite run_program_raises_at_once; cycle 1;
  [ vm_compute; reflexivity
  | reflexivity
  | erewrite step_dispatch; [|vm_compute; reflexivity ..];
    tac; [vm_compute; reflexivity ..|]
  | reflexivity ];
  cycle 1.

(** ** Register operands outside the register file *)

Lemma ldi_bad_register (s : CPU) (r v : Z) :
  getitem (ram s) (PC s + 1) = Ok r →
  getitem (ram s) (PC s + 2) = Ok v →
  ¬ (- Z.of_nat (length (reg s)) ≤ r < Z.of_nat (length (reg s))) →
  ldi s = (Raise IndexError, s).
Proof.
  intros Hr Hv Hbad. unfold ldi, gets. msteps.
  erewrite bind_Raise; [reflexivity|].
  by apply reg_write_Raise, setitem_out_of_range.
Qed.

Lemma push_bad_register (s : CPU) (r sp : Z) (rs1 : list Z) :
  getitem (ram s) (PC s + 1) = Ok r →
  getitem (reg s) SP = Ok sp →
  setitem (reg s) SP (sp - 1) = Ok rs1 →
  ¬ (- Z.of_nat (length (reg s)) ≤ r < Z.of_nat (length (reg s))) →
  push s = (Raise IndexError, set_reg rs1 s).
Proof.
  intros Hr Hsp Hw Hbad. unfold push, gets. msteps.
  erewrite bind_Raise; [reflexivity|].
  apply reg_read_Raise, getitem_out_of_range. cbn [reg set_reg].
  by rewrite (setitem_length _ _ _ _ Hw).
Qed.

Lemma jmp_bad_register (s : CPU) (r : Z) :
  getitem (ram s) (PC s + 1) = Ok r →
  ¬ (- Z.of_nat (length (reg s)) ≤ r < Z.of_nat (length (reg s))) →
  jmp s = (Raise IndexError, s).
Proof.
  intros Hr Hbad. unfold jmp, gets. msteps.
  erewrite bind_Raise; [reflexivity|].
  by apply reg_read_Raise, getitem_out_of_range.
Qed.

(** C10. Register operand bytes are neither validated nor masked: a loaded
    program whose LDI, PUSH or JMP carries a register operand greater than 7
    makes the handler index the 8-element register file out of range, and the
    run ends in [IndexError]; nothing is printed, and LDI writes no register
    (no wrapped access). *)
Theorem register_operand_unchecked (r v : Z) (k : nat) :
  7 < r →
  (observable (run_program (S k) [LDI; r; v]) = (Raised IndexError, []) ∧
   reg (run_program (S k) [LDI; r; v]).2 = reg init) ∧
  observable (run_program (S k) [PUSH; r]) = (Raised IndexError, []) ∧
  observable (run_program (S k) [JMP; r]) = (Raised IndexError, []).
Proof.
  intros Hr. repeat split.
  - first_step_raises ltac:(apply (ldi_bad_register _ r v)).
    cbn [reg length]. lia.
  - first_step_raises ltac:(apply (ldi_bad_register _ r v)).
    cbn [reg length]. lia.
  - first_step_raises ltac:(eapply (push_bad_register _ r)).
    cbn [reg length]. lia.
  - first_step_raises ltac:(apply (jmp_bad_register _ r)).
    cbn [reg length]. lia.
Qed.

Lemma register_operand_unchecked_witness :
  7 < 8 ∧
  observable (run_program 1 [LDI; 8; 5]) = (Raised IndexError, []).
Proof.
  split; [lia|].
  exact (proj1 (proj1 (register_operand_unchecked 8 5 0 ltac:(lia)))).
Defined.

(** ** End-to-end: the multiplication program *)

(** C2, as stated, fails: the run of [LDI R0,8; LDI R1,9; MUL R0,R1; PRN R0;
    HLT] from a fresh machine does not print the single line [72]; the MUL
    handler prints a line of its own first. *)
Lemma mult_program_not_one_line :
  stdout (run_program 5 mult_program).2 ≠ ["72"] ∧
  length (stdout (run_program 5 mult_program).2) = 2%nat.
Proof. vm_compute. split; [discriminate|reflexivity]. Qed.

(** C2, amended. The run of [LDI R0,8; LDI R1,9; MUL R0,R1; PRN R0; HLT] from
    a fresh machine returns with exactly two output lines, [8 * 9 =] written
    by MUL and then [72] written by PRN, with the running flag false. *)
Theorem mult_program_output (k : nat) :
  observable (run_program (5 + k) mult_program) =
    (Returned, ["8 * 9 ="; "72"]) ∧
  running (run_program (5 + k) mult_program).2 = false.
Proof.
  rewrite run_program_more_fuel by (vm_compute; discriminate).
  vm_compute. done.
Qed.

(** ** Unsupported opcodes *)

(** C3, as stated, fails: what the caller observes of the fault does not
    identify the PC.  The empty program faults at PC 0 and [LDI R0,0] faults
    at PC 3; both end in the same [KeyError 0] with nothing printed. *)
Lemma unsupported_opcode_fault_omits_pc :
  observable (run_program 5 []) = (Raised (KeyError 0), []) ∧
  observable (run_program 5 [LDI; 0; 0]) = (Raised (KeyError 0), []) ∧
  PC (run_program 5 []).2 = 0 ∧
  PC (run_program 5 [LDI; 0; 0]).2 = 3.
Proof. vm_compute. done. Qed.

(** C3, amended. When the run loop fetches an opcode that has no registered
    handler, no handler runs: the run ends at once in a fatal error that
    carries the offending opcode, the machine state is as it was at the
    fetch, and nothing is printed. *)
Theorem unsupported_opcode_fatal (s : CPU) (IR : Z) (fuel : nat) :
  running s = true →
  getitem (ram s) (PC s) = Ok IR →
  branchtable !! IR = None →
  run (S fuel) s = (Raised (KeyError IR), s).
Proof.
  intros Hrun HIR Hnone.
  apply run_step_Raise; [done|]. by apply step_unknown.
Qed.

Lemma unsupported_opcode_fatal_witness :
  run 1 init = (Raised (KeyError 0), init).
Proof.
  apply (unsupported_opcode_fatal init 0 0); vm_compute; reflexivity.
Defined.

(** ** The program counter is not kept inside memory *)

(** C8, as stated, fails: after [LDI R0,253; JMP R0] the LDI in the last
    three cells of memory advances PC to 256 while the machine is still
    running, and the next fetch raises [IndexError]. *)
Lemma pc_leaves_memory :
  let s := (run_program 5 edge_program).2 in
  (run_program 5 edge_program).1 = Raised IndexError ∧
  running s = true ∧ PC s = 256 ∧ ¬ (0 ≤ PC s < 256) ∧
  step s = (Raise IndexError, s).
Proof. vm_compute. split_and!; try done. intros [_ H]. done. Qed.

(** A negative PC is a valid host index: after [LDI R7,0; LDI R0,HLT;
    PUSH R0; JMP R7] the fetch at PC = -1 reads the last cell and the
    machine halts normally. *)
Example negative_pc_fetch :
  let s3 := (run_program 4 [LDI; 7; 0; LDI; 0; HLT; PUSH; 0; JMP; 7]).2 in
  running s3 = true ∧ PC s3 = -1 ∧
  run 1 s3 = (Returned, set_PC 0 (set_running false s3)).
Proof. vm_compute. done. Qed.

(** C8, amended. While the machine is running, a fetch succeeds only at a PC
    that is a valid host index of memory, [-256 <= PC < 256]; handlers do not
    keep PC in that range, and with PC outside it the iteration raises
    [IndexError] and leaves the state as it was. *)
Theorem fetch_needs_valid_pc (s : CPU) :
  wf s →
  (∀ s', step s = (Ok tt, s') → -256 ≤ PC s < 256) ∧
  (¬ (-256 ≤ PC s < 256) → ∀ fuel, running s = true →
     run (S fuel) s = (Raised IndexError, s)).
Proof.
  intros [Hram _]. split.
  - intros s' Hs. destruct (getitem (ram s) (PC s)) as [IR|e] eqn:HIR.
    + apply getitem_range in HIR. rewrite Hram in HIR. lia.
    + pose proof (getitem_raises _ _ _ HIR) as ->.
      rewrite step_fetch_fails in Hs by done. discriminate.
  - intros Hbad fuel Hrun. apply run_step_Raise; [done|].
    apply step_fetch_fails, getitem_out_of_range. rewrite Hram. lia.
Qed.

Lemma fetch_needs_valid_pc_witness :
  let s1 := set_ram (<[0%nat := HLT]> (ram init)) init in
  let s2 := set_PC 256 init in
  wf s1 ∧ wf s2 ∧ -256 ≤ PC s1 < 256 ∧ run 1 s2 = (Raised IndexError, s2).
Proof.
  assert (H1 : wf (set_ram (<[0%nat := HLT]> (ram init)) init))
    by (split; reflexivity).
  assert (H2 : wf (set_PC 256 init)) by (split; reflexivity).
  split; [exact H1|]. split; [exact H2|]. split.
  - eapply (proj1 (fetch_needs_valid_pc _ H1)). vm_compute. reflexivity.
  - apply (proj2 (fetch_needs_valid_pc _ H2)); [|reflexivity].
    cbn [PC set_PC]. lia.
Defined.

(** ** Comparison and conditional jumps *)

(** C4. Executing CMP with equal register operands sets the Equal flag (the
    flags byte becomes 1); executing CMP with unequal register operands
    leaves the flags byte unchanged, so an Equal flag that was set stays
    set. *)
Theorem cmp_equal_flag_sticky (s : CPU) (rA rB a b : Z) :
  getitem (ram s) (PC s) = Ok CMP →
  getitem (ram s) (PC s + 1) = Ok rA →
  getitem (ram s) (PC s + 2) = Ok rB →
  getitem (reg s) rA = Ok a →
  getitem (reg s) rB = Ok b →
  ∃ s', step s = (Ok tt, s') ∧
    (a = b → FL s' = 1 ∧ equal_flag s' = true) ∧
    (a ≠ b → FL s' = FL s ∧ (equal_flag s = true → equal_flag s' = true)).
Proof.
  intros Hop HA HB Ha Hb.
  erewrite step_dispatch by (first [eassumption|reflexivity]).
  cbn [invoke]. erewrite compare_eq by eassumption.
  eexists. split; [reflexivity|].
  destruct (decide (a = b)) as [Heq|Hne]; split; intros H; try done.
Qed.

Lemma cmp_equal_flag_sticky_witness :
  let s := set_FL 1 (set_reg [4; 5; 0; 0; 0; 0; 0; 255]
                      (set_ram (CMP :: 0 :: 1 :: replicate 253 0) init)) in
  ∃ s', step s = (Ok tt, s') ∧
    (4 = 5 → FL s' = 1 ∧ equal_flag s' = true) ∧
    (4 ≠ 5 → FL s' = FL s ∧ (equal_flag s = true → equal_flag s' = true)).
Proof.
  apply (cmp_equal_flag_sticky _ 0 1 4 5); vm_compute; reflexivity.
Defined.

(** C5. Executing JEQ sets PC to the register's value when the Equal flag is
    set and advances PC by exactly 2 when it is clear; executing JNE sets PC
    to the register's value when the Equal flag is clear and advances PC by
    exactly 2 when it is set.  Nothing but PC changes. *)
Theorem jeq_jne_branch (s : CPU) (r : Z) :
  getitem (ram s) (PC s + 1) = Ok r →
  (getitem (ram s) (PC s) = Ok JEQ →
     (equal_flag s = true → ∀ t, getitem (reg s) r = Ok t →
        ∃ s', step s = (Ok tt, s') ∧ PC s' = t ∧ same_but_PC s s') ∧
     (equal_flag s = false →
        ∃ s', step s = (Ok tt, s') ∧ PC s' = PC s + 2 ∧ same_but_PC s s')) ∧
  (getitem (ram s) (PC s) = Ok JNE →
     (equal_flag s = false → ∀ t, getitem (reg s) r = Ok t →
        ∃ s', step s = (Ok tt, s') ∧ PC s' = t ∧ same_but_PC s s') ∧
     (equal_flag s = true →
        ∃ s', step s = (Ok tt, s') ∧ PC s' = PC s + 2 ∧ same_but_PC s s')).
Proof.
  intros Hr. split; intros Hop;
    erewrite step_dispatch by (first [eassumption|reflexivity]);
    cbn [invoke]; split.
  - intros Hf t Ht. erewrite jeq_taken by eassumption.
    eexists. split; [reflexivity|]. split; [reflexivity|]. by repeat split.
  - intros Hf. erewrite jeq_not_taken by eassumption.
    eexists. split; [reflexivity|]. split; [reflexivity|]. by repeat split.
  - intros Hf t Ht. erewrite jne_taken by eassumption.
    eexists. split; [reflexivity|]. split; [reflexivity|]. by repeat split.
  - intros Hf. erewrite jne_not_taken by eassumption.
    eexists. split; [reflexivity|]. split; [reflexivity|]. by repeat split.
Qed.

Lemma jeq_jne_branch_witness :
  let s := set_FL 1 (set_reg [40; 0; 0; 0; 0; 0; 0; 255]
                      (set_ram (JEQ :: 0 :: replicate 254 0) init)) in
  let s' := set_ram (JNE :: 0 :: replicate 254 0) s in
  (∃ s1, step s = (Ok tt, s1) ∧ PC s1 = 40 ∧ same_but_PC s s1) ∧
  (∃ s1, step s' = (Ok tt, s1) ∧ PC s1 = PC s' + 2 ∧ same_but_PC s' s1).
Proof.
  intros s s'. split.
  - assert (Hr : getitem (ram s) (PC s + 1) = Ok 0) by reflexivity.
    assert (Hop : getitem (ram s) (PC s) = Ok JEQ) by reflexivity.
    exact (proj1 (proj1 (jeq_jne_branch s 0 Hr) Hop) eq_refl 40 eq_refl).
  - assert (Hr : getitem (ram s') (PC s' + 1) = Ok 0) by reflexivity.
    assert (Hop : getitem (ram s') (PC s') = Ok JNE) by reflexivity.
    exact (proj2 (proj2 (jeq_jne_branch s' 0 Hr) Hop) eq_refl).
Defined.

(** ** Stack discipline *)

(** C6. Executing CALL at address [call_site] decrements SP, writes
    [call_site + 2] at [Memory[SP]] and sets PC to the register named by the
    operand; a later RET, with SP and that stack cell as CALL left them,
    sets PC to exactly [call_site + 2] and SP to its value before the
    CALL. *)
Theorem call_ret_roundtrip
    (s : CPU) (call_site sp r target : Z) (rs1 m' : list Z) :
  PC s = call_site →
  getitem (ram s) call_site = Ok CALL →
  getitem (reg s) SP = Ok sp →
  setitem (reg s) SP (sp - 1) = Ok rs1 →
  setitem (ram s) (sp - 1) (call_site + 2) = Ok m' →
  getitem m' (call_site + 1) = Ok r →
  getitem rs1 r = Ok target →
  ∃ s1, step s = (Ok tt, s1) ∧
    getitem (reg s1) SP = Ok (sp - 1) ∧
    getitem (ram s1) (sp - 1) = Ok (call_site + 2) ∧
    PC s1 = target ∧
    ∀ s2, getitem (ram s2) (PC s2) = Ok RET →
          getitem (reg s2) SP = Ok (sp - 1) →
          getitem (ram s2) (sp - 1) = Ok (call_site + 2) →
          ∃ s3, step s2 = (Ok tt, s3) ∧
            PC s3 = call_site + 2 ∧ getitem (reg s3) SP = Ok sp.
Proof.
  intros <- Hop Hsp Hw Hm Hr Ht.
  erewrite step_dispatch by (first [eassumption|reflexivity]).
  cbn [invoke]. erewrite call_eq by eassumption.
  eexists. split; [reflexivity|]. cbn [reg ram PC set_PC set_ram set_reg].
  split; [by eapply getitem_setitem_eq|].
  split; [by eapply getitem_setitem_eq|].
  split; [done|].
  intros s2 Hop2 Hsp2 Hcell.
  destruct (setitem_total (reg s2) SP (sp - 1 + 1)) as [rs2 Hw2];
    [by eapply getitem_range|].
  erewrite step_dispatch by (first [eassumption|reflexivity]).
  cbn [invoke]. erewrite ret_eq by eassumption.
  eexists. split; [reflexivity|]. cbn [reg PC set_PC set_reg].
  split; [done|].
  rewrite (getitem_setitem_eq _ _ _ _ Hw2). f_equal. lia.
Qed.

Lemma call_ret_roundtrip_witness :
  let s := set_reg [0; 9; 0; 0; 0; 0; 0; 255]
             (set_ram (CALL :: 1 :: replicate 7 0 ++ RET :: replicate 246 0)
                init) in
  ∃ s1 s3, step s = (Ok tt, s1) ∧ PC s1 = 9 ∧
    step s1 = (Ok tt, s3) ∧ PC s3 = 0 + 2 ∧ getitem (reg s3) SP = Ok 255.
Proof.
  intros s.
  destruct (call_ret_roundtrip s 0 255 1 9
              (<[7%nat := 254]> (reg s)) (<[254%nat := 2]> (ram s)))
    as (s1 & Hs1 & Hsp1 & Hcell & Hpc & Hret); [vm_compute; reflexivity ..|].
  exists s1.
  assert (Hop : getitem (ram s1) (PC s1) = Ok RET).
  { vm_compute in Hs1. injection Hs1 as <-. vm_compute. reflexivity. }
  destruct (Hret s1 Hop Hsp1 Hcell) as (s3 & Hs3 & Hpc3 & Hsp3).
  exists s3. done.
Defined.

(** C7. For every register [r] and machine state: executing PUSH [r] and
    then at once POP [r] leaves the value of register [r] unchanged and
    restores SP (register 7) to its value before the PUSH; the whole register
    file is as it was. *)
Theorem push_pop_roundtrip (s : CPU) (r sp v : Z) :
  wf s →
  getitem (ram s) (PC s) = Ok PUSH →
  getitem (ram s) (PC s + 1) = Ok r →
  getitem (reg s) SP = Ok sp →
  getitem (reg s) r = Ok v →
  -256 ≤ sp - 1 < 256 →
  ∃ s1, step s = (Ok tt, s1) ∧ PC s1 = PC s + 2 ∧
    (getitem (ram s1) (PC s1) = Ok POP →
     getitem (ram s1) (PC s1 + 1) = Ok r →
     ∃ s2, step s1 = (Ok tt, s2) ∧
       getitem (reg s2) r = Ok v ∧
       getitem (reg s2) SP = Ok sp ∧
       reg s2 = reg s ∧
       PC s2 = PC s + 4).
Proof.
  intros [Hram Hreg] Hop Hr Hsp Hv Hslot.
  destruct (setitem_total (reg s) SP (sp - 1)) as [rs1 Hw];
    [by eapply getitem_range|].
  pose proof (setitem_length _ _ _ _ Hw) as Hlen1.
  destruct (getitem_total rs1 r) as [v1 Hv1];
    [rewrite Hlen1; by eapply getitem_range|].
  destruct (setitem_total (ram s) (sp - 1) v1) as [m' Hm];
    [rewrite Hram; lia|].
  erewrite step_dispatch by (first [eassumption|reflexivity]).
  cbn [invoke]. erewrite push_eq by eassumption.
  eexists. split; [reflexivity|]. cbn [PC set_PC]. split; [done|].
  cbn [reg ram PC set_PC set_ram set_reg]. intros Hop2 Hr2.
  pose proof (getitem_setitem_eq _ _ _ _ Hw) as Hsp1.
  pose proof (getitem_setitem_eq _ _ _ _ Hm) as Hcell.
  pose proof (setitem_getitem_id _ _ _ Hv1) as Hw1.
  assert (Hw2 : setitem rs1 SP (sp - 1 + 1) = Ok (reg s)).
  { rewrite (setitem_setitem _ _ _ _ _ Hw).
    replace (sp - 1 + 1) with sp by lia. by apply setitem_getitem_id. }
  erewrite step_dispatch; [|exact Hop2|reflexivity].
  cbn [invoke].
  erewrite (pop_eq _ r (sp - 1) v1 (sp - 1) rs1 (reg s)) by done.
  eexists. split; [reflexivity|]. cbn [reg PC set_PC set_reg].
  split_and!; [done..|lia].
Qed.

Lemma push_pop_roundtrip_witness :
  let s := set_reg [0; 0; 0; 42; 0; 0; 0; 255]
             (set_ram (PUSH :: 3 :: POP :: 3 :: replicate 252 0) init) in
  ∃ s1 s2, step s = (Ok tt, s1) ∧ step s1 = (Ok tt, s2) ∧
    getitem (reg s2) 3 = Ok 42 ∧ getitem (reg s2) SP = Ok 255 ∧
    reg s2 = reg s.
Proof.
  intros s.
  destruct (push_pop_roundtrip s 3 255 42)
    as (s1 & Hs1 & Hpc & Hpop);
    [first [split; reflexivity | vm_compute; reflexivity | lia] ..|].
  exists s1.
  assert (Hops : getitem (ram s1) (PC s1) = Ok POP ∧
                 getitem (ram s1) (PC s1 + 1) = Ok 3).
  { vm_compute in Hs1. injection Hs1 as <-. vm_compute. done. }
  destruct (Hpop (proj1 Hops) (proj2 Hops)) as (s2 & Hs2 & Hr & Hsp & Hreg & _).
  exists s2. done.
Defined.

(** ** Which exceptions can leave the run loop *)

Create HintDb roi discriminated.

Lemma roi_bind {A B : Type} (m : M A) (k : A → M B) :
  raises_only_host_errors m →
  (∀ a, raises_only_host_errors (k a)) →
  raises_only_host_errors (m ≫= k).
Proof.
  intros Hm Hk s e s'. unfold mbind, M_bind.
  destruct (m s) as [[a|e1] s1] eqn:E.
  - apply Hk.
  - intros [= -> ->]. by eapply Hm.
Qed.

Lemma roi_mret {A : Type} (a : A) : raises_only_host_errors (mret a).
Proof. intros s e s'. discriminate. Qed.

Lemma roi_gets {A : Type} (f : CPU → A) : raises_only_host_errors (gets f).
Proof. intros s e s'. discriminate. Qed.

Lemma roi_modify (f : CPU → CPU) : raises_only_host_errors (modify f).
Proof. intros s e s'. discriminate. Qed.

Lemma roi_getitem (l : list Z) (i : Z) :
  raises_only_host_errors (lift (getitem l i)).
Proof. intros s e s' [= H _]. left. by eapply getitem_raises. Qed.

Lemma roi_setitem (l : list Z) (i v : Z) :
  raises_only_host_errors (lift (setitem l i v)).
Proof. intros s e s' [= H _]. left. by eapply setitem_raises. Qed.

Lemma roi_str (n : Z) : raises_only_host_errors (str n).
Proof.
  intros s e s'. unfold str. case_decide; [discriminate|].
  intros [= <- _]. by right.
Qed.

#[local] Hint Resolve roi_mret roi_gets roi_modify roi_getitem roi_setitem
  roi_str : roi.

Ltac roi :=
  repeat first
    [ progress intros
    | apply roi_bind
    | case_decide
    | solve [auto with roi] ].

Lemma roi_ram_read (a : Z) : raises_only_host_errors (ram_read a).
Proof. unfold ram_read. roi. Qed.

Lemma roi_ram_write (a v : Z) : raises_only_host_errors (ram_write a v).
Proof. unfold ram_write. roi. Qed.

Lemma roi_reg_read (r : Z) : raises_only_host_errors (reg_read r).
Proof. unfold reg_read. roi. Qed.

Lemma roi_reg_write (r v : Z) : raises_only_host_errors (reg_write r v).
Proof. unfold reg_write. roi. Qed.

Lemma roi_advance (n : Z) : raises_only_host_errors (advance n).
Proof. unfold advance. roi. Qed.

Lemma roi_print (line : string) : raises_only_host_errors (print line).
Proof. unfold print. roi. Qed.

#[local] Hint Resolve roi_ram_read roi_ram_write roi_reg_read roi_reg_write
  roi_advance roi_print : roi.

(** The two operation codes the handlers pass to the ALU. *)
Lemma roi_alu_ADD (rA rB : Z) : raises_only_host_errors (alu "ADD" rA rB).
Proof. unfold alu. rewrite decide_True by done. roi. Qed.

Lemma roi_alu_CMP (rA rB : Z) : raises_only_host_errors (alu "CMP" rA rB).
Proof.
  unfold alu. rewrite decide_False by done. rewrite decide_True by done. roi.
Qed.

#[local] Hint Resolve roi_alu_ADD roi_alu_CMP : roi.

(** Any other operation code does reach the ALU's guard. *)
Lemma alu_guard (op : string) (rA rB : Z) (s : CPU) :
  op ≠ "ADD" → op ≠ "CMP" →
  alu op rA rB s = (Raise (Exception_ "Unsupported ALU operation"), s).
Proof. intros H1 H2. unfold alu. by rewrite !decide_False by done. Qed.

Lemma roi_invoke (h : Handler) : raises_only_host_errors (invoke h).
Proof.
  destruct h; cbn [invoke];
    unfold ldi, prn, mul, hlt, push, pop, call, ret, add, compare, jmp, jeq,
      jne;
    roi.
Qed.

Lemma step_raises (s s' : CPU) (e : exn) :
  step s = (Raise e, s') →
  e = IndexError ∨ e = ValueError ∨ ∃ k, e = KeyError k.
Proof.
  unfold step, gets. erewrite bind_Ok by reflexivity.
  unfold mbind at 1, M_bind at 1.
  destruct (ram_read (PC s) s) as [[IR|e1] s1] eqn:E.
  - destruct (branchtable !! IR) as [h|].
    + cbn [truthy]. intros [H|H]%roi_invoke; auto.
    + intros [= <- _]. right. right. eauto.
  - intros [= -> ->].
    destruct (roi_ram_read _ _ _ _ E) as [H|H]; auto.
Qed.

Lemma run_raises (fuel : nat) (s : CPU) (e : exn) :
  (run fuel s).1 = Raised e →
  e = IndexError ∨ e = ValueError ∨ ∃ k, e = KeyError k.
Proof.
  revert s. induction fuel as [|fuel IH]; intros s; simpl.
  - destruct (running s); discriminate.
  - destruct (running s); [|discriminate].
    destruct (step s) as [[[]|e1] s1] eqn:E; [apply IH|].
    simpl. intros [= ->]. by eapply step_raises.
Qed.

(** C9. The ALU's unsupported-operation branch is unreachable from the run
    loop: the handlers that call the ALU pass "ADD" or "CMP" only, so no run,
    from any machine state and with any budget, ends in the exception
    "Unsupported ALU operation". *)
Theorem alu_fault_unreachable (fuel : nat) (s : CPU) :
  alu_fault (run fuel s).1 = false.
Proof.
  unfold alu_fault. apply bool_decide_eq_false. intros H.
  apply run_raises in H as [H|[H|[k H]]]; discriminate.
Qed.

(** ** Arithmetic is on unbounded integers *)

(** C1, as stated, fails: with a = 200 and b = 100 the ADD leaves 300 in the
    destination register, not (200 + 100) mod 256 = 44; with a = b = 16 the
    MUL leaves 256, not 0. *)
Lemma add_mul_do_not_wrap :
  getitem (reg (run_program 4 [LDI; 0; 200; LDI; 1; 100; ADD; 0; 1; HLT]).2) 0
    = Ok 300 ∧
  (200 + 100) mod 256 = 44 ∧
  getitem (reg (run_program 4 [LDI; 0; 16; LDI; 1; 16; MUL; 0; 1; HLT]).2) 0
    = Ok 256 ∧
  (16 * 16) mod 256 = 0.
Proof. vm_compute. done. Qed.

Lemma code_at_nth (m : list Z) (a : Z) (bytes : list Z) (i : nat) (b : Z) :
  code_at m a bytes → bytes !! i = Some b → getitem m (a + Z.of_nat i) = Ok b.
Proof. intros H. apply H. Qed.

(** The registers after [LDI rA,a; LDI rB,b] in two distinct registers. *)
Lemma load_two_registers (rs : list Z) (rA rB a b : Z) :
  length rs = 8%nat →
  0 ≤ rA < 8 → 0 ≤ rB < 8 → rA ≠ rB →
  ∃ rs1 rs2,
    setitem rs rA a = Ok rs1 ∧ setitem rs1 rB b = Ok rs2 ∧
    length rs2 = 8%nat ∧
    getitem rs2 rA = Ok a ∧ getitem rs2 rB = Ok b.
Proof.
  intros Hlen HA HB Hne.
  destruct (setitem_total rs rA a) as [rs1 H1]; [rewrite Hlen; lia|].
  pose proof (setitem_length _ _ _ _ H1) as Hlen1.
  destruct (setitem_total rs1 rB b) as [rs2 H2]; [rewrite Hlen1, Hlen; lia|].
  exists rs1, rs2. split_and!; try done.
  - rewrite (setitem_length _ _ _ _ H2). congruence.
  - rewrite (getitem_setitem_ne _ _ _ _ _ H2).
    + by eapply getitem_setitem_eq.
    + rewrite Hlen1, Hlen. apply py_index_nonneg_inj; lia.
  - by eapply getitem_setitem_eq.
Qed.

(** Running [LDI rA,a; LDI rB,b; op rA,rB; HLT] where the handler of [op]
    stores [f a b] in [rA] and, like ADD and MUL, advances PC by 3 and leaves
    memory and the running flag alone. *)
Lemma run_binary_op
    (s : CPU) (op rA rB a b : Z) (h : Handler) (f : Z → Z → Z) (k : nat) :
  wf s → running s = true →
  0 ≤ rA < 8 → 0 ≤ rB < 8 → rA ≠ rB →
  branchtable !! op = Some h →
  (∀ s0 rs', getitem (ram s0) (PC s0 + 1) = Ok rA →
     getitem (ram s0) (PC s0 + 2) = Ok rB →
     getitem (reg s0) rA = Ok a → getitem (reg s0) rB = Ok b →
     setitem (reg s0) rA (f a b) = Ok rs' →
     ∃ out, invoke h s0 =
       (Ok tt, set_PC (PC s0 + 3) (set_reg rs' (set_stdout out s0)))) →
  code_at (ram s) (PC s) [LDI; rA; a; LDI; rB; b; op; rA; rB; HLT] →
  ∃ s', run (4 + k) s = (Returned, s') ∧ getitem (reg s') rA = Ok (f a b).
Proof.
  intros [Hram Hreg] Hrun HA HB Hne Hh Hop Hcode.
  destruct s as [run0 ram0 reg0 pc fl out0].
  cbn [ram reg PC running] in *. subst run0.
  destruct (load_two_registers reg0 rA rB a b) as
    (rs1 & rs2 & Hw1 & Hw2 & Hlen2 & Ha & Hb); try done.
  destruct (setitem_total rs2 rA (f a b)) as [rs3 Hw3]; [rewrite Hlen2; lia|].
  assert (C : ∀ (i : nat) (x : Z),
             [LDI; rA; a; LDI; rB; b; op; rA; rB; HLT] !! i = Some x →
             ∀ a', a' = pc + Z.of_nat i → getitem ram0 a' = Ok x).
  { intros i x Hi a' ->. by apply Hcode. }
  pose proof (C 0%nat _ eq_refl pc ltac:(lia)) as C0.
  pose proof (C 1%nat _ eq_refl (pc + 1) ltac:(lia)) as C1.
  pose proof (C 2%nat _ eq_refl (pc + 2) ltac:(lia)) as C2.
  pose proof (C 3%nat _ eq_refl (pc + 3) ltac:(lia)) as C3.
  pose proof (C 4%nat _ eq_refl (pc + 3 + 1) ltac:(lia)) as C4.
  pose proof (C 5%nat _ eq_refl (pc + 3 + 2) ltac:(lia)) as C5.
  pose proof (C 6%nat _ eq_refl (pc + 3 + 3) ltac:(lia)) as C6.
  pose proof (C 7%nat _ eq_refl (pc + 3 + 3 + 1) ltac:(lia)) as C7.
  pose proof (C 8%nat _ eq_refl (pc + 3 + 3 + 2) ltac:(lia)) as C8.
  pose proof (C 9%nat _ eq_refl (pc + 3 + 3 + 3) ltac:(lia)) as C9.
  clear C Hcode.
  change (4 + k)%nat with (S (S (S (S k)))).
  (* LDI rA, a *)
  erewrite run_step_Ok; [|done|]; cycle 1.
  { erewrite step_dispatch; [|exact C0|reflexivity]. by eapply ldi_eq. }
  cbn [set_PC set_reg ram reg PC FL stdout running].
  (* LDI rB, b *)
  erewrite run_step_Ok; [|done|]; cycle 1.
  { erewrite step_dispatch; [|exact C3|reflexivity]. by eapply ldi_eq. }
  cbn [set_PC set_reg ram reg PC FL stdout running].
  (* op rA, rB *)
  destruct (Hop (mkCPU true ram0 rs2 (pc + 3 + 3) fl out0) rs3)
    as [out Hinv]; try done.
  erewrite run_step_Ok; [|done|]; cycle 1.
  { erewrite step_dispatch; [|exact C6|exact Hh]. exact Hinv. }
  cbn [set_PC set_reg set_stdout ram reg PC FL stdout running].
  (* HLT *)
  erewrite run_step_Ok; [|done|]; cycle 1.
  { erewrite step_dispatch; [|exact C9|reflexivity]. apply hlt_eq. }
  rewrite run_halted by reflexivity.
  eexists. split; [reflexivity|]. cbn [reg set_PC set_reg set_running].
  by eapply getitem_setitem_eq.
Qed.

(** A byte is far below the digit limit. *)
Lemma byte_digits (a : Z) :
  0 ≤ a < 256 → Z.abs a < 10 ^ int_max_str_digits.
Proof.
  intros Ha. rewrite Z.abs_eq by lia.
  apply Z.lt_le_trans with (10 ^ 3); [lia|].
  apply Z.pow_le_mono_r; [lia|]. unfold int_max_str_digits. lia.
Qed.

(** C1, amended. For all byte values a and b loaded by LDI into two distinct
    registers: after ADD the destination register holds exactly a + b, and
    after MUL exactly a * b, as unbounded integers with no reduction modulo
    256; the value is the one the modular law gives exactly when the sum
    (the product) is below 256. *)
Theorem add_mul_exact (s : CPU) (rA rB a b : Z) (k : nat) :
  wf s → running s = true →
  0 ≤ rA < 8 → 0 ≤ rB < 8 → rA ≠ rB →
  0 ≤ a < 256 → 0 ≤ b < 256 →
  (code_at (ram s) (PC s) [LDI; rA; a; LDI; rB; b; ADD; rA; rB; HLT] →
     ∃ s', run (4 + k) s = (Returned, s') ∧
       getitem (reg s') rA = Ok (a + b) ∧
       (getitem (reg s') rA = Ok ((a + b) mod 256) ↔ a + b < 256)) ∧
  (code_at (ram s) (PC s) [LDI; rA; a; LDI; rB; b; MUL; rA; rB; HLT] →
     ∃ s', run (4 + k) s = (Returned, s') ∧
       getitem (reg s') rA = Ok (a * b) ∧
       (getitem (reg s') rA = Ok ((a * b) mod 256) ↔ a * b < 256)).
Proof.
  intros Hwf Hrun HA HB Hne Ha Hb. split; intros Hcode.
  - destruct (run_binary_op s ADD rA rB a b h_add Z.add k)
      as (s' & Hs' & Hv); try done.
    { intros s0 rs' H1 H2 H3 H4 H5. exists (stdout s0). cbn [invoke].
      erewrite add_eq by eassumption. by destruct s0. }
    exists s'. split_and!; try done. rewrite Hv. split.
    + intros [= E]. pose proof (Z.mod_pos_bound (a + b) 256). lia.
    + intros Hlt. by rewrite Z.mod_small by lia.
  - destruct (run_binary_op s MUL rA rB a b h_mul Z.mul k)
      as (s' & Hs' & Hv); try done.
    { intros s0 rs' H1 H2 H3 H4 H5. eexists. cbn [invoke].
      erewrite mul_eq by first [eassumption | by apply byte_digits].
      by destruct s0. }
    exists s'. split_and!; try done. rewrite Hv. split.
    + intros [= E]. pose proof (Z.mod_pos_bound (a * b) 256). lia.
    + intros Hlt. by rewrite Z.mod_small by nia.
Qed.

Lemma add_mul_exact_witness :
  let s1 := (boot [LDI; 0; 200; LDI; 1; 100; ADD; 0; 1; HLT]).2 in
  let s2 := (boot [LDI; 0; 200; LDI; 1; 100; MUL; 0; 1; HLT]).2 in
  (∃ s', run 4 s1 = (Returned, s') ∧ getitem (reg s') 0 = Ok (200 + 100)) ∧
  (∃ s', run 4 s2 = (Returned, s') ∧ getitem (reg s') 0 = Ok (200 * 100)).
Proof.
  intros s1 s2.
  assert (Hc : ∀ (s : CPU) (l : list Z),
             (∀ (i : nat) (x : Z), (i < 10)%nat → l !! i = Some x →
                getitem (ram s) (PC s + Z.of_nat i) = Ok x) →
             length l = 10%nat → code_at (ram s) (PC s) l).
  { intros s l H Hl i x Hi. apply H; [|done].
    apply lookup_lt_Some in Hi. lia. }
  split.
  - destruct (proj1 (add_mul_exact s1 0 1 200 100 0%nat
        ltac:(split; reflexivity) eq_refl ltac:(lia) ltac:(lia) ltac:(lia)
        ltac:(lia) ltac:(lia))) as (s' & Hs' & Hv & _).
    + apply Hc; [|reflexivity]. intros i x Hi.
      do 10 (destruct i as [|i]; [intros [= <-]; vm_compute; reflexivity|]).
      lia.
    + exists s'. done.
  - destruct (proj2 (add_mul_exact s2 0 1 200 100 0%nat
        ltac:(split; reflexivity) eq_refl ltac:(lia) ltac:(lia) ltac:(lia)
        ltac:(lia) ltac:(lia))) as (s' & Hs' & Hv & _).
    + apply Hc; [|reflexivity]. intros i x Hi.
      do 10 (destruct i as [|i]; [intros [= <-]; vm_compute; reflexivity|]).
      lia.
    + exists s'. done.
Defined.

(** * Further properties of the machine *)

(** ** Frame reasoning over the monad *)

Section Frame.
Context (R : relation CPU) `{!Reflexive R} `{!Transitive R}.

Lemma pres_bind {A B : Type} (m : M A) (k : A → M B) :
  preserves R m → (∀ a, preserves R (k a)) → preserves R (m ≫= k).
Proof.
  intros Hm Hk s r s'. unfold mbind, M_bind.
  destruct (m s) as [[a|e] s1] eqn:E.
  - intros Hka. transitivity s1; [by eapply Hm|by eapply Hk].
  - intros [= <- <-]. by eapply Hm.
Qed.

Lemma pres_mret {A : Type} (a : A) : preserves R (mret a).
Proof. intros s r s' [= <- <-]. reflexivity. Qed.

Lemma pres_gets {A : Type} (f : CPU → A) : preserves R (gets f).
Proof. intros s r s' [= <- <-]. reflexivity. Qed.

Lemma pres_lift {A : Type} (x : result A) : preserves R (lift x).
Proof. intros s r s' [= <- <-]. reflexivity. Qed.

Lemma pres_raise {A : Type} (e : exn) : preserves R (raise (A := A) e).
Proof. intros s r s' [= <- <-]. reflexivity. Qed.

Lemma pres_modify (f : CPU → CPU) :
  (∀ s, R s (f s)) → preserves R (modify f).
Proof. intros Hf s r s' [= <- <-]. apply Hf. Qed.

Lemma pres_ram_read (a : Z) : preserves R (ram_read a).
Proof.
  unfold ram_read. apply pres_bind; [apply pres_gets|intros; apply pres_lift].
Qed.

Lemma pres_reg_read (r : Z) : preserves R (reg_read r).
Proof.
  unfold reg_read. apply pres_bind; [apply pres_gets|intros; apply pres_lift].
Qed.

(** What every handler keeps, one iteration of the loop keeps, and so does
    a whole run. *)
Lemma pres_step :
  (∀ h, preserves R (invoke h)) → preserves R step.
Proof.
  intros Hh. unfold step.
  apply pres_bind; [apply pres_gets|intros pc].
  apply pres_bind; [apply pres_ram_read|intros IR].
  destruct (branchtable !! IR) as [h|]; [apply Hh|apply pres_raise].
Qed.

Lemma pres_run (fuel : nat) (s : CPU) :
  (∀ h, preserves R (invoke h)) → R s (run fuel s).2.
Proof.
  intros Hh. revert s. induction fuel as [|fuel IH]; intros s; simpl.
  - destruct (running s); reflexivity.
  - destruct (running s); [|reflexivity].
    destruct (step s) as [[[]|e] s1] eqn:E.
    + transitivity s1; [by eapply pres_step|apply IH].
    + by eapply pres_step.
Qed.

Lemma ensures_of_preserves {A : Type} (m : M A) :
  preserves R m → ensures R m.
Proof. intros H s a s'. apply H. Qed.
End Frame.

Global Instance same_equiv {B : Type} (f : CPU → B) : Equivalence (same f).
Proof.
  unfold same. split.
  - by intros s.
  - by intros s s'.
  - intros s1 s2 s3. congruence.
Qed.

Global Instance same_shape_preorder : PreOrder same_shape.
Proof.
  unfold same_shape. split.
  - by intros s.
  - intros s1 s2 s3 [? ?] [? ?]. split; congruence.
Qed.

Global Instance flags_kept_or_equal_preorder : PreOrder flags_kept_or_equal.
Proof.
  unfold flags_kept_or_equal. split.
  - intros s. by left.
  - intros s1 s2 s3 [?|?] [?|?]; (left; congruence) || (right; congruence).
Qed.

Global Instance output_extends_preorder : PreOrder output_extends.
Proof.
  unfold output_extends. split.
  - by intros s.
  - intros s1 s2 s3 ? ?. by etrans.
Qed.

(** Break a method into its primitive steps; [tac] closes the obligation of
    each state update. *)
Ltac frame_with tac :=
  repeat first
    [ progress intros
    | solve [tac]
    | apply pres_mret; tc_solve
    | apply pres_gets; tc_solve
    | apply pres_lift; tc_solve
    | apply pres_raise; tc_solve
    | apply pres_bind; [tc_solve| |]
    | apply pres_modify; intros; solve [tac]
    | progress unfold str
    | case_decide ].

Ltac unfold_methods :=
  unfold ldi, prn, mul, hlt, push, pop, call, ret, add, compare, jmp, jeq,
    jne, alu, ram_read, ram_write, reg_read, reg_write, advance, print.

(** ** The lists never change length *)

Lemma ram_write_same_shape (a v : Z) : preserves same_shape (ram_write a v).
Proof.
  intros s r s'. unfold ram_write, gets, lift, modify, mbind, M_bind.
  destruct (setitem (ram s) a v) as [m'|e] eqn:E.
  - intros [= <- <-]. split; [|done]. by eapply setitem_length.
  - intros [= <- <-]. done.
Qed.

Lemma reg_write_same_shape (r v : Z) : preserves same_shape (reg_write r v).
Proof.
  intros s x s'. unfold reg_write, gets, lift, modify, mbind, M_bind.
  destruct (setitem (reg s) r v) as [m'|e] eqn:E.
  - intros [= <- <-]. split; [done|]. by eapply setitem_length.
  - intros [= <- <-]. done.
Qed.

Lemma invoke_same_shape (h : Handler) : preserves same_shape (invoke h).
Proof.
  destruct h; cbn [invoke];
    unfold ldi, prn, mul, hlt, push, pop, call, ret, add, compare, jmp, jeq,
      jne, alu, ram_read, reg_read, advance, print;
    frame_with ltac:(first [ apply ram_write_same_shape
                           | apply reg_write_same_shape
                           | split; reflexivity ]).
Qed.

Lemma load_from_same_shape (program : list Z) (a : Z) :
  preserves same_shape (load_from a program).
Proof.
  revert a. induction program as [|x rest IH]; intros a; cbn [load_from].
  - apply pres_mret; tc_solve.
  - apply pres_bind; [tc_solve|apply ram_write_same_shape|intros; apply IH].
Qed.

(** X1. Memory keeps its 256 cells and the register file its 8 slots: no
    instruction, run or load ever resizes them, whether it returns or
    raises. *)
Theorem run_keeps_lengths (fuel : nat) (s : CPU) (program : list Z) :
  (length (ram (run fuel s).2) = length (ram s) ∧
   length (reg (run fuel s).2) = length (reg s)) ∧
  wf (run_program fuel program).2.
Proof.
  split.
  - apply (pres_run same_shape), invoke_same_shape.
  - unfold run_program, boot.
    destruct (load_from 0 program init) as [[[]|e] s0] eqn:E;
      apply load_from_same_shape in E as [Hm Hr]; cbn [snd].
    + destruct (pres_run same_shape fuel s0 invoke_same_shape) as [Hm' Hr'].
      split; [rewrite Hm', Hm|rewrite Hr', Hr]; reflexivity.
    + split; [rewrite Hm|rewrite Hr]; reflexivity.
Qed.

(** ** The flags byte *)

Lemma invoke_flags (h : Handler) : preserves flags_kept_or_equal (invoke h).
Proof.
  destruct h; cbn [invoke]; unfold_methods;
    frame_with ltac:(first [left; reflexivity | right; reflexivity]).
Qed.

(** X2. Over a whole run the flags byte either keeps its value or becomes
    exactly 1: no instruction clears the Equal bit once it is set, and the
    Greater and Less bits are never set by the machine. *)
Theorem run_flags (fuel : nat) (s : CPU) :
  (FL (run fuel s).2 = FL s ∨ FL (run fuel s).2 = 1) ∧
  (equal_flag s = true → equal_flag (run fuel s).2 = true).
Proof.
  pose proof (pres_run flags_kept_or_equal fuel s invoke_flags) as H.
  split; [exact H|]. unfold equal_flag. intros Hs.
  destruct H as [->| ->]; [done|reflexivity].
Qed.

Lemma run_flags_witness :
  equal_flag (run 2 (set_FL 1 (boot [LDI; 0; 1; CMP; 0; 1]).2)).2 = true.
Proof. apply (run_flags 2 _), eq_refl. Defined.

(** ** Output *)

Lemma invoke_output (h : Handler) : preserves output_extends (invoke h).
Proof.
  destruct h; cbn [invoke]; unfold_methods;
    frame_with ltac:(unfold output_extends; cbn;
                     first [reflexivity | apply prefix_app_r; reflexivity]).
Qed.

Lemma invoke_silent (h : Handler) :
  h ≠ h_prn → h ≠ h_mul → preserves (same stdout) (invoke h).
Proof.
  intros H1 H2. destruct h; try done; cbn [invoke];
    unfold ldi, hlt, push, pop, call, ret, add, compare, jmp, jeq, jne, alu,
      ram_read, ram_write, reg_read, reg_write, advance;
    frame_with ltac:(reflexivity).
Qed.

Lemma branchtable_inv (op : Z) (h : Handler) :
  branchtable !! op = Some h →
  op = match h with
       | h_ldi => LDI | h_prn => PRN | h_mul => MUL | h_hlt => HLT
       | h_push => PUSH | h_pop => POP | h_call => CALL | h_ret => RET
       | h_add => ADD | h_compare => CMP
       | h_jmp => JMP | h_jeq => JEQ | h_jne => JNE
       end.
Proof.
  unfold branchtable. intros H.
  repeat (apply lookup_insert_Some in H as [[<- <-]|[_ H]]; [reflexivity|]).
  by rewrite lookup_empty in H.
Qed.

(** What one iteration does once the fetched opcode is known. *)
Lemma step_cases (s s' : CPU) (r : result unit) :
  step s = (r, s') →
  (getitem (ram s) (PC s) = Raise IndexError ∧ r = Raise IndexError ∧ s' = s) ∨
  (∃ op, getitem (ram s) (PC s) = Ok op ∧ branchtable !! op = None ∧
         r = Raise (KeyError op) ∧ s' = s) ∨
  (∃ op h, getitem (ram s) (PC s) = Ok op ∧ branchtable !! op = Some h ∧
           invoke h s = (r, s')).
Proof.
  intros Hs. destruct (getitem (ram s) (PC s)) as [op|e] eqn:E.
  - right. destruct (branchtable !! op) as [h|] eqn:Eh.
    + right. exists op, h. by rewrite (step_dispatch _ _ _ E Eh) in Hs.
    + left. exists op. rewrite (step_unknown _ _ E Eh) in Hs.
      by injection Hs as <- <-.
  - left. pose proof (getitem_raises _ _ _ E) as ->.
    rewrite (step_fetch_fails _ E) in Hs. by injection Hs as <- <-.
Qed.

(** X3. Output is append-only, and only PRN and MUL write: over any run the
    lines already printed stay a prefix of the output, and an iteration whose
    opcode is neither PRN nor MUL prints nothing. *)
Theorem output_append_only (fuel : nat) (s s' : CPU) (r : result unit) (op : Z) :
  stdout s `prefix_of` stdout (run fuel s).2 ∧
  (step s = (r, s') → getitem (ram s) (PC s) = Ok op →
   op ≠ PRN → op ≠ MUL → stdout s' = stdout s).
Proof.
  split; [apply (pres_run output_extends), invoke_output|].
  intros Hs Hop Hprn Hmul.
  apply step_cases in Hs as [(E & _)|[(op' & E & _ & _ & ->)|(op' & h & E & Eh & Hi)]];
    [congruence|done|].
  assert (op' = op) as -> by congruence.
  apply branchtable_inv in Eh.
  eapply (invoke_silent h); [| |exact Hi]; intros ->; congruence.
Qed.

Lemma output_append_only_witness :
  let s := (boot [LDI; 0; 8; PRN; 0; HLT]).2 in
  stdout (step s).2 = stdout s.
Proof.
  intros s.
  apply (proj2 (output_append_only 0 s (step s).2 (step s).1 LDI));
    [by destruct (step s)|reflexivity|discriminate|discriminate].
Defined.

(** ** Which instruction touches what *)

(** A frame condition of handlers, lifted to one iteration of the loop. *)
Lemma step_same {B : Type} (f : CPU → B) (P : Handler → Prop)
    (s s' : CPU) (r : result unit) (op : Z) :
  (∀ h, P h → preserves (same f) (invoke h)) →
  step s = (r, s') →
  getitem (ram s) (PC s) = Ok op →
  (∀ h, branchtable !! op = Some h → P h) →
  f s' = f s.
Proof.
  intros Hinv Hs Hop HP.
  apply step_cases in Hs
    as [(E & _)|[(op' & E & _ & _ & ->)|(op' & h & E & Eh & Hi)]];
    [congruence|done|].
  assert (op' = op) as -> by congruence.
  by eapply (Hinv h); [apply HP|].
Qed.

Lemma invoke_keeps_ram (h : Handler) :
  h ≠ h_push → h ≠ h_call → preserves (same ram) (invoke h).
Proof.
  intros H1 H2. destruct h; try done; cbn [invoke];
    unfold ldi, prn, mul, hlt, pop, ret, add, compare, jmp, jeq, jne, alu,
      ram_read, reg_read, reg_write, advance, print;
    frame_with ltac:(reflexivity).
Qed.

Lemma invoke_keeps_reg (h : Handler) :
  h ∈ [h_prn; h_hlt; h_compare; h_jmp; h_jeq; h_jne] →
  preserves (same reg) (invoke h).
Proof.
  rewrite !elem_of_cons, elem_of_nil.
  intros H; repeat destruct H as [->|H]; try done; cbn [invoke];
    unfold prn, hlt, compare, jmp, jeq, jne, alu, ram_read, reg_read,
      advance, print;
    frame_with ltac:(reflexivity).
Qed.

Lemma invoke_keeps_FL (h : Handler) :
  h ≠ h_compare → preserves (same FL) (invoke h).
Proof.
  intros H1. destruct h; try done; cbn [invoke]; unfold_methods;
    frame_with ltac:(reflexivity).
Qed.

Lemma invoke_keeps_running (h : Handler) :
  h ≠ h_hlt → preserves (same running) (invoke h).
Proof.
  intros H1. destruct h; try done; cbn [invoke]; unfold_methods;
    frame_with ltac:(reflexivity).
Qed.

(** X4. Memory is written by PUSH and CALL only: an iteration of the run
    loop at any other opcode, whether its handler returns or raises, leaves
    every memory cell as it was (POP and RET only read the stack). *)
Theorem memory_written_only_by_push_call
    (s s' : CPU) (r : result unit) (op : Z) :
  step s = (r, s') →
  getitem (ram s) (PC s) = Ok op →
  op ≠ PUSH → op ≠ CALL →
  ram s' = ram s.
Proof.
  intros Hs Hop H1 H2.
  apply (step_same ram (λ h, h ≠ h_push ∧ h ≠ h_call) s s' r op);
    [intros h [? ?]; by apply invoke_keeps_ram|done..|].
  intros h Hh%branchtable_inv. split; intros ->; congruence.
Qed.

Lemma memory_written_only_by_push_call_witness :
  let s := (boot [POP; 0; HLT]).2 in
  ram (step s).2 = ram s.
Proof.
  intros s.
  apply (memory_written_only_by_push_call s (step s).2 (step s).1 POP);
    [by destruct (step s)|reflexivity|discriminate|discriminate].
Defined.

(** X5. PRN, HLT, CMP, JMP, JEQ and JNE are read-only on the register file:
    an iteration at one of these opcodes leaves all eight registers, the
    stack pointer included, as they were. *)
Theorem registers_read_only_instructions
    (s s' : CPU) (r : result unit) (op : Z) :
  step s = (r, s') →
  getitem (ram s) (PC s) = Ok op →
  op ∈ [PRN; HLT; CMP; JMP; JEQ; JNE] →
  reg s' = reg s.
Proof.
  intros Hs Hop Hin.
  apply (step_same reg (λ h, h ∈ [h_prn; h_hlt; h_compare; h_jmp; h_jeq; h_jne])
           s s' r op); [apply invoke_keeps_reg|done..|].
  intros h Hh%branchtable_inv. revert Hin. rewrite !elem_of_cons, !elem_of_nil.
  intros Hin. destruct h; try (by eauto 10);
    exfalso; repeat destruct Hin as [Hin|Hin]; try done;
    rewrite Hh in Hin; discriminate.
Qed.

Lemma registers_read_only_instructions_witness :
  let s := (boot [CMP; 0; 7; HLT]).2 in
  reg (step s).2 = reg s.
Proof.
  intros s.
  apply (registers_read_only_instructions s (step s).2 (step s).1 CMP);
    [by destruct (step s)|reflexivity|].
  apply elem_of_cons. right. apply elem_of_cons. right.
  apply elem_of_cons. by left.
Defined.

(** X6. The flags byte is written by CMP only, and the running flag by HLT
    only: an iteration at any other opcode leaves [FL] (respectively
    [running]) unchanged. *)
Theorem flags_and_running_writers
    (s s' : CPU) (r : result unit) (op : Z) :
  step s = (r, s') →
  getitem (ram s) (PC s) = Ok op →
  (op ≠ CMP → FL s' = FL s) ∧ (op ≠ HLT → running s' = running s).
Proof.
  intros Hs Hop. split; intros Hne.
  - apply (step_same FL (λ h, h ≠ h_compare) s s' r op);
      [apply invoke_keeps_FL|done..|].
    intros h Hh%branchtable_inv ->. congruence.
  - apply (step_same running (λ h, h ≠ h_hlt) s s' r op);
      [apply invoke_keeps_running|done..|].
    intros h Hh%branchtable_inv ->. congruence.
Qed.

Lemma flags_and_running_writers_witness :
  let s := (boot [LDI; 0; 8; HLT]).2 in
  FL (step s).2 = FL s ∧ running (step s).2 = running s.
Proof.
  intros s.
  destruct (flags_and_running_writers s (step s).2 (step s).1 LDI)
    as [H1 H2]; [by destruct (step s)|reflexivity|].
  split; [apply H1|apply H2]; discriminate.
Defined.

(** ** How a run ends *)

Global Instance Handler_eq_dec : EqDecision Handler.
Proof. solve_decision. Defined.

Lemma step_raise_running (s s' : CPU) (e : exn) :
  step s = (Raise e, s') → running s' = running s.
Proof.
  intros Hs.
  apply step_cases in Hs
    as [(_ & _ & ->)|[(op & _ & _ & _ & ->)|(op & h & _ & _ & Hi)]];
    [done..|].
  destruct (decide (h = h_hlt)) as [->|Hne].
  - cbn [invoke] in Hi. rewrite hlt_eq in Hi. discriminate.
  - by eapply (invoke_keeps_running h).
Qed.

Lemma step_KeyError (s s' : CPU) (k : Z) :
  step s = (Raise (KeyError k), s') →
  s' = s ∧ getitem (ram s) (PC s) = Ok k ∧ branchtable !! k = None.
Proof.
  intros Hs.
  apply step_cases in Hs
    as [(_ & [=] & _)|[(op & E & En & [= <-] & ->)|(op & h & _ & _ & Hi)]];
    [done|].
  apply roi_invoke in Hi as [?|?]; discriminate.
Qed.

(** X7. A run tells by its final state how it ended: it returns exactly
    when the running flag is false, and an exception that leaves it is
    [IndexError], or [ValueError] (an integer too long to print), or
    [KeyError k] where [k] is the byte at the final PC and has no handler.
    The [sys.exit] branch and the ALU's exception are never reached. *)
Theorem run_exit_kinds (fuel : nat) (s : CPU) :
  ((run fuel s).1 = Returned ↔ running (run fuel s).2 = false) ∧
  (∀ e, (run fuel s).1 = Raised e →
     e = IndexError ∨ e = ValueError ∨
     ∃ k, e = KeyError k ∧
          getitem (ram (run fuel s).2) (PC (run fuel s).2) = Ok k ∧
          branchtable !! k = None).
Proof.
  revert s. induction fuel as [|fuel IH]; intros s; simpl.
  - destruct (running s) eqn:E; cbn [fst snd]; rewrite ?E;
      (split; [split|]); done.
  - destruct (running s) eqn:E; cbn [fst snd];
      [|rewrite ?E; (split; [split|]); done].
    destruct (step s) as [[[]|e] s1] eqn:Hs; [apply IH|]. cbn [fst snd].
    pose proof (step_raise_running _ _ _ Hs) as Hr. rewrite E in Hr.
    split; [split; intros H; congruence|].
    intros e' [= <-].
    destruct (step_raises _ _ _ Hs) as [->|[->|[k ->]]]; auto.
    apply step_KeyError in Hs as (-> & ? & ?). right. right. eauto.
Qed.

Lemma run_exit_kinds_witness :
  (run 3 init).1 = Raised (KeyError 0) ∧
  (KeyError 0 = IndexError ∨ KeyError 0 = ValueError ∨
   ∃ k, KeyError 0 = KeyError k ∧
        getitem (ram (run 3 init).2) (PC (run 3 init).2) = Ok k ∧
        branchtable !! k = None).
Proof.
  split; [reflexivity|].
  exact (proj2 (run_exit_kinds 3 init) (KeyError 0) eq_refl).
Defined.

(** X8. Only HLT stops the machine: an iteration of the run loop that
    changes the running flag fetched the opcode HLT, returned normally and
    advanced PC by one. *)
Theorem only_hlt_halts (s s' : CPU) (r : result unit) :
  step s = (r, s') →
  running s' ≠ running s →
  getitem (ram s) (PC s) = Ok HLT ∧ r = Ok tt ∧
  s' = set_PC (PC s + 1) (set_running false s).
Proof.
  intros Hs Hne.
  apply step_cases in Hs
    as [(_ & _ & ->)|[(op & _ & _ & _ & ->)|(op & h & E & Eh & Hi)]];
    [done..|].
  destruct (decide (h = h_hlt)) as [->|Hh].
  - apply branchtable_inv in Eh as ->. cbn [invoke] in Hi.
    rewrite hlt_eq in Hi. by injection Hi as <- <-.
  - destruct Hne. by eapply (invoke_keeps_running h).
Qed.

Lemma only_hlt_halts_witness :
  let s := (boot [HLT]).2 in
  getitem (ram s) (PC s) = Ok HLT ∧ (step s).1 = Ok tt ∧
  (step s).2 = set_PC (PC s + 1) (set_running false s).
Proof.
  intros s.
  apply (only_hlt_halts s (step s).2 (step s).1);
    [by destruct (step s)|discriminate].
Defined.

(** ** Instruction lengths *)

Lemma ens_bind {A B : Type} (n : Z) (m : M A) (k : A → M B) :
  preserves (same PC) m →
  (∀ a, ensures (pc_advanced n) (k a)) →
  ensures (pc_advanced n) (m ≫= k).
Proof.
  intros Hm Hk s b s'. unfold mbind, M_bind.
  destruct (m s) as [[a|e] s1] eqn:E; [|done].
  intros Hka. apply Hk in Hka. apply Hm in E.
  unfold pc_advanced, same in *. congruence.
Qed.

Lemma ens_advance (n : Z) : ensures (pc_advanced n) (advance n).
Proof. intros s a s' [= <- <-]. reflexivity. Qed.

Ltac pc_frame :=
  unfold alu, ram_read, ram_write, reg_read, reg_write, print;
  frame_with ltac:(reflexivity).

Lemma invoke_length (h : Handler) (n : Z) :
  (h, n) ∈ [(h_ldi, 3); (h_mul, 3); (h_add, 3); (h_compare, 3);
            (h_prn, 2); (h_push, 2); (h_pop, 2); (h_hlt, 1)] →
  ensures (pc_advanced n) (invoke h).
Proof.
  rewrite !elem_of_cons, elem_of_nil.
  intros H; repeat destruct H as [[= -> ->]|H]; try done; cbn [invoke];
    unfold ldi, mul, add, compare, prn, push, pop, hlt;
    repeat first [apply ens_advance | apply ens_bind; [pc_frame|intros]].
Qed.

(** X10. Instruction lengths: an iteration that returns normally at LDI,
    MUL, ADD or CMP advances PC by exactly 3, at PRN, PUSH or POP by exactly
    2, and at HLT by exactly 1. *)
Theorem relative_pc_advance (s s' : CPU) (op n : Z) :
  step s = (Ok tt, s') →
  getitem (ram s) (PC s) = Ok op →
  instruction_length op = Some n →
  PC s' = PC s + n.
Proof.
  intros Hs Hop Hn.
  apply step_cases in Hs
    as [(_ & [=] & _)|[(op' & _ & _ & [=] & _)|(op' & h & E & Eh & Hi)]].
  assert (op' = op) as -> by congruence.
  apply branchtable_inv in Eh. eapply (invoke_length h n); [|exact Hi].
  rewrite !elem_of_cons, elem_of_nil.
  destruct h; subst op; vm_compute in Hn; injection Hn as <- || discriminate;
    eauto 10.
Qed.

Lemma relative_pc_advance_witness :
  let s := (boot [PUSH; 0; HLT]).2 in
  PC (step s).2 = PC s + 2.
Proof.
  intros s.
  apply (relative_pc_advance s (step s).2 PUSH 2); reflexivity.
Defined.

(** ** Loading *)

Lemma py_index_nat (n a : nat) :
  (a < n)%nat → py_index n (Z.of_nat a) = Some a.
Proof.
  intros H. unfold py_index. rewrite decide_True by lia.
  by rewrite Nat2Z.id.
Qed.

Lemma load_from_fits (program : list Z) (a : nat) (s : CPU) :
  (a + length program ≤ length (ram s))%nat →
  load_from (Z.of_nat a) program s =
    (Ok tt,
     set_ram (take a (ram s) ++ program ++ drop (a + length program) (ram s))
       s).
Proof.
  revert a s. induction program as [|x rest IH]; intros a s Hlen.
  - cbn [load_from length app]. rewrite Nat.add_0_r, take_drop. by destruct s.
  - cbn [load_from length] in *.
    erewrite bind_Ok; cycle 1.
    { apply ram_write_Ok. unfold setitem. rewrite py_index_nat by lia.
      reflexivity. }
    replace (Z.of_nat a + 1) with (Z.of_nat (S a)) by lia.
    rewrite IH by (cbn [ram set_ram]; rewrite length_insert; lia).
    cbn [ram set_ram]. unfold set_ram; cbn. do 2 f_equal.
    rewrite drop_insert_lt by lia.
    erewrite take_S_r by (apply list_lookup_insert_eq; lia).
    rewrite take_insert_ge by lia.
    rewrite <- app_assoc. cbn [app].
    by replace (a + S (length rest))%nat with (S (a + length rest)) by lia.
Qed.

Lemma load_from_app (p1 p2 : list Z) (a : Z) (s : CPU) :
  load_from a (p1 ++ p2) s =
    (load_from a p1 ;; load_from (a + Z.of_nat (length p1)) p2) s.
Proof.
  revert a s. induction p1 as [|x p1 IH]; intros a s.
  - cbn. by rewrite Z.add_0_r.
  - cbn [app load_from length]. unfold mbind, M_bind in *.
    destruct (ram_write a x s) as [[[]|e] s1]; [|done].
    rewrite IH. by replace (a + 1 + Z.of_nat (length p1))
                      with (a + Z.of_nat (S (length p1))) by lia.
Qed.

Lemma load_lines_Ok (program : list Z) (a : Z) :
  load_lines a (Ok <$> program) = load_from a program.
Proof.
  revert a. induction program as [|x rest IH]; intros a; [done|].
  cbn [fmap list_fmap load_lines load_from]. by rewrite IH.
Qed.

(** X11. [load] with two command-line arguments, a file that opens and
    lines that all convert prints the line [Filename: <name>] and then places
    the values at addresses 0, 1, 2, ... in order: for at most 256 values it
    succeeds, memory is the program followed by the untouched zero cells, and
    registers, PC, flags and running flag are as constructed.  With any other
    number of arguments it prints a usage line and exits with status 1,
    leaving memory untouched. *)
Theorem load_places_program
    (argv : list string) (filename : string) (program : list Z)
    (file : result (list (result Z))) :
  (length argv = 2%nat → argv !! 1%nat = Some filename →
   (length program ≤ 256)%nat →
   ∃ s', load argv (Ok (Ok <$> program)) init = (Ok tt, s') ∧
     stdout s' = ["Filename: " +:+ filename] ∧
     ram s' = program ++ replicate (256 - length program) 0 ∧
     reg s' = reg init ∧ PC s' = PC init ∧ FL s' = FL init ∧
     running s' = running init) ∧
  (length argv ≠ 2%nat →
   ∃ s', load argv file init = (Raise (SystemExit 1), s') ∧
     stdout s' = ["Need proper file name passed in."] ∧
     ram s' = ram init ∧ reg s' = reg init).
Proof.
  split.
  - intros Hargv Hname Hlen. unfold load.
    rewrite decide_False by (intros H; by apply H). rewrite Hname.
    unfold print, modify, lift.
    erewrite bind_Ok by reflexivity. erewrite bind_Ok by reflexivity.
    rewrite load_lines_Ok.
    pose proof (load_from_fits program 0
                  (set_stdout (stdout init ++ ["Filename: " +:+ filename])
                     init)) as H.
    change (Z.of_nat 0) with 0 in H. rewrite H by (cbn; lia).
    eexists. split; [reflexivity|]. cbn [stdout ram reg PC FL running
      set_ram set_stdout init app take Nat.add].
    rewrite drop_replicate. done.
  - intros Hargv. unfold load. rewrite decide_True by done.
    eexists. split; [reflexivity|]. done.
Qed.

Lemma load_places_program_witness :
  (∃ s', load ["ls8.py"; "mult.ls8"] (Ok (Ok <$> [LDI; 0; 8])) init
           = (Ok tt, s') ∧
     stdout s' = ["Filename: mult.ls8"] ∧
     ram s' = [LDI; 0; 8] ++ replicate (256 - 3) 0) ∧
  (∃ s', load ["ls8.py"] (Raise OSError) init = (Raise (SystemExit 1), s') ∧
     stdout s' = ["Need proper file name passed in."]).
Proof.
  split.
  - destruct (proj1 (load_places_program ["ls8.py"; "mult.ls8"] "mult.ls8"
                       [LDI; 0; 8] (Raise OSError)))
      as (s' & H & Hout & Hram & _); [reflexivity|reflexivity|cbn; lia|].
    exists s'. done.
  - destruct (proj2 (load_places_program ["ls8.py"] "" [] (Raise OSError)))
      as (s' & H & Hout & _); [discriminate|].
    exists s'. done.
Defined.

(** X12. A program longer than memory makes the load raise [IndexError] at
    the write to address 256; by then its first 256 values have been written,
    and nothing has run. *)
Theorem load_overflow (program : list Z) :
  (256 < length program)%nat →
  boot program = (Raise IndexError, set_ram (take 256 program) init).
Proof.
  intros Hlen. unfold boot.
  assert (Hinit : length (ram init) = 256%nat) by reflexivity.
  assert (Htake : length (take 256 program) = 256%nat)
    by (rewrite length_take; lia).
  rewrite <- (take_drop 256 program) at 1.
  rewrite load_from_app.
  erewrite bind_Ok; cycle 1.
  { change 0 with (Z.of_nat 0).
    apply (load_from_fits (take 256 program) 0 init). lia. }
  rewrite Htake.
  destruct (drop 256 program) as [|x rest] eqn:E.
  { apply (f_equal length) in E. rewrite length_drop in E. cbn in E. lia. }
  cbn [load_from]. erewrite bind_Raise; cycle 1.
  { unfold ram_write, gets, lift. unfold mbind, M_bind.
    rewrite setitem_out_of_range; [reflexivity|].
    cbn [ram set_ram]. rewrite !length_app, Htake, length_drop, Hinit.
    change (take 0 (ram init)) with (@nil Z). cbn [length]. lia. }
  change (take 0 (ram init)) with (@nil Z). cbn [app].
  rewrite drop_ge by lia. by rewrite app_nil_r.
Qed.

Lemma load_overflow_witness :
  boot (replicate 257 HLT) =
    (Raise IndexError, set_ram (take 256 (replicate 257 HLT)) init).
Proof. apply (load_overflow (replicate 257 HLT)). cbn. lia. Defined.

(** ** Single instructions *)

Lemma getitem_setitem_other (l l' : list Z) (i v : Z) :
  setitem l i v = Ok l' →
  ∀ j, py_index (length l) j ≠ py_index (length l) i →
       getitem l' j = getitem l j.
Proof. intros H j Hj. by eapply getitem_setitem_ne. Qed.

(** X13. LDI stores the immediate in the register its operand names and
    nothing else: the register reads back the value, every other register,
    memory, flags and output are unchanged, and PC advances by 3.  The
    operand is a host index, so -8..-1 name registers 0..7 from the end and
    register 7, the stack pointer, is not protected. *)
Theorem ldi_sets_register (s : CPU) (r v : Z) :
  wf s →
  getitem (ram s) (PC s) = Ok LDI →
  getitem (ram s) (PC s + 1) = Ok r →
  getitem (ram s) (PC s + 2) = Ok v →
  -8 ≤ r < 8 →
  ∃ s', step s = (Ok tt, s') ∧
    getitem (reg s') r = Ok v ∧
    (∀ j, py_index 8 j ≠ py_index 8 r →
          getitem (reg s') j = getitem (reg s) j) ∧
    ram s' = ram s ∧ FL s' = FL s ∧ stdout s' = stdout s ∧
    running s' = running s ∧ PC s' = PC s + 3.
Proof.
  intros [Hram Hreg] Hop Hr Hv Hrange.
  destruct (setitem_total (reg s) r v) as [rs' Hw]; [rewrite Hreg; lia|].
  erewrite step_dispatch by (first [eassumption|reflexivity]).
  cbn [invoke]. erewrite ldi_eq by eassumption.
  eexists. split; [reflexivity|]. cbn.
  split; [by eapply getitem_setitem_eq|]. split; [|done].
  intros j Hj. eapply getitem_setitem_other; [done|]. by rewrite Hreg.
Qed.

Lemma ldi_sets_register_witness :
  let s := (boot [LDI; 7; 3]).2 in
  ∃ s', step s = (Ok tt, s') ∧ getitem (reg s') 7 = Ok 3 ∧
        getitem (reg s') SP = Ok 3.
Proof.
  intros s.
  destruct (ldi_sets_register s 7 3) as (s' & Hs & Hv & _);
    [split; reflexivity|reflexivity..|lia|].
  exists s'. done.
Defined.

(** X14. PUSH decrements SP, then stores the named register at the new SP:
    the stored value is the register's value, except that PUSH of register 7
    stores the already decremented SP.  No other register and no other cell
    changes, and PC advances by 2.  The slot is a host index: with SP at or
    below 0 the push lands at the top of memory. *)
Theorem push_spec (s : CPU) (r sp v : Z) :
  wf s →
  getitem (ram s) (PC s) = Ok PUSH →
  getitem (ram s) (PC s + 1) = Ok r →
  getitem (reg s) SP = Ok sp →
  getitem (reg s) r = Ok v →
  -256 ≤ sp - 1 < 256 →
  ∃ s', step s = (Ok tt, s') ∧
    getitem (reg s') SP = Ok (sp - 1) ∧
    getitem (ram s') (sp - 1) =
      Ok (if decide (py_index 8 r = py_index 8 SP) then sp - 1 else v) ∧
    (∀ j, py_index 8 j ≠ py_index 8 SP →
          getitem (reg s') j = getitem (reg s) j) ∧
    (∀ a, py_index 256 a ≠ py_index 256 (sp - 1) →
          getitem (ram s') a = getitem (ram s) a) ∧
    PC s' = PC s + 2.
Proof.
  intros [Hram Hreg] Hop Hr Hsp Hv Hslot.
  destruct (setitem_total (reg s) SP (sp - 1)) as [rs1 Hw];
    [by eapply getitem_range|].
  set (pushed := if decide (py_index 8 r = py_index 8 SP) then sp - 1 else v).
  assert (Hv1 : getitem rs1 r = Ok pushed).
  { unfold pushed. case_decide as Hidx.
    - pose proof (getitem_setitem_eq _ _ _ _ Hw) as H.
      unfold getitem in *. rewrite (setitem_length _ _ _ _ Hw), Hreg in *.
      by rewrite Hidx.
    - rewrite (getitem_setitem_other _ _ _ _ Hw); [done|]. by rewrite Hreg. }
  destruct (setitem_total (ram s) (sp - 1) pushed) as [m' Hm];
    [rewrite Hram; lia|].
  erewrite step_dispatch by (first [eassumption|reflexivity]).
  cbn [invoke]. erewrite push_eq by eassumption.
  eexists. split; [reflexivity|]. cbn.
  split; [by eapply getitem_setitem_eq|].
  split; [by eapply getitem_setitem_eq|].
  split; [|split; [|done]].
  - intros j Hj. eapply getitem_setitem_other; [done|]. by rewrite Hreg.
  - intros a Ha. eapply getitem_setitem_other; [done|]. by rewrite Hram.
Qed.

Lemma push_spec_witness :
  let s := set_reg [0; 0; 0; 0; 0; 0; 0; 0] (boot [PUSH; 7]).2 in
  ∃ s', step s = (Ok tt, s') ∧ getitem (reg s') SP = Ok (-1) ∧
        getitem (ram s') 255 = Ok (-1).
Proof.
  intros s.
  destruct (push_spec s 7 0 0) as (s' & Hs & Hsp & Hcell & _);
    [split; reflexivity|reflexivity..|lia|].
  exists s'. split; [done|]. split; [done|].
  vm_compute in Hs. injection Hs as <-. reflexivity.
Defined.

(** X15. A PUSH whose new SP is not a valid index of memory raises
    [IndexError] half way: SP has already been decremented, while memory, PC
    and the other registers are as they were. *)
Theorem push_stack_exhausted (s : CPU) (r sp v : Z) :
  wf s →
  getitem (ram s) (PC s) = Ok PUSH →
  getitem (ram s) (PC s + 1) = Ok r →
  getitem (reg s) SP = Ok sp →
  getitem (reg s) r = Ok v →
  ¬ (-256 ≤ sp - 1 < 256) →
  ∃ s', step s = (Raise IndexError, s') ∧
    getitem (reg s') SP = Ok (sp - 1) ∧
    (∀ j, py_index 8 j ≠ py_index 8 SP →
          getitem (reg s') j = getitem (reg s) j) ∧
    ram s' = ram s ∧ PC s' = PC s.
Proof.
  intros [Hram Hreg] Hop Hr Hsp Hv Hslot.
  destruct (setitem_total (reg s) SP (sp - 1)) as [rs1 Hw];
    [by eapply getitem_range|].
  pose proof (getitem_setitem_eq _ _ _ _ Hw) as Hsp1.
  destruct (getitem_total rs1 r) as [v1 Hv1].
  { rewrite (setitem_length _ _ _ _ Hw). by eapply getitem_range. }
  erewrite step_dispatch by (first [eassumption|reflexivity]).
  cbn [invoke]. unfold push, gets. msteps.
  erewrite bind_Raise; cycle 1.
  { unfold ram_write, gets, lift, mbind, M_bind. cbn [ram set_reg].
    rewrite setitem_out_of_range; [reflexivity|]. by rewrite Hram. }
  eexists. split; [reflexivity|]. cbn.
  split; [done|]. split; [|done].
  intros j Hj. eapply getitem_setitem_other; [done|]. by rewrite Hreg.
Qed.

Lemma push_stack_exhausted_witness :
  let s := set_reg [0; 0; 0; 0; 0; 0; 0; -256] (boot [PUSH; 0]).2 in
  ∃ s', step s = (Raise IndexError, s') ∧
        getitem (reg s') SP = Ok (-256 - 1) ∧ ram s' = ram s.
Proof.
  intros s.
  destruct (push_stack_exhausted s 0 (-256) 0) as (s' & Hs & Hsp & _ & Hm & _);
    [split; reflexivity|reflexivity..|lia|].
  exists s'. done.
Defined.

(** X16. POP copies the cell at SP into the named register and then
    increments SP: for a register other than 7 the register holds the cell's
    value and SP is one higher; POP into register 7 leaves SP at the popped
    value plus one.  Memory and the other registers are unchanged and PC
    advances by 2. *)
Theorem pop_spec (s : CPU) (r sp value : Z) :
  wf s →
  getitem (ram s) (PC s) = Ok POP →
  getitem (ram s) (PC s + 1) = Ok r →
  getitem (reg s) SP = Ok sp →
  getitem (ram s) sp = Ok value →
  -8 ≤ r < 8 →
  ∃ s', step s = (Ok tt, s') ∧
    (py_index 8 r ≠ py_index 8 SP →
       getitem (reg s') r = Ok value ∧ getitem (reg s') SP = Ok (sp + 1)) ∧
    (py_index 8 r = py_index 8 SP → getitem (reg s') SP = Ok (value + 1)) ∧
    (∀ j, py_index 8 j ≠ py_index 8 r → py_index 8 j ≠ py_index 8 SP →
          getitem (reg s') j = getitem (reg s) j) ∧
    ram s' = ram s ∧ PC s' = PC s + 2.
Proof.
  intros [Hram Hreg] Hop Hr Hsp Hcell Hrange.
  destruct (setitem_total (reg s) r value) as [rs1 Hw1]; [rewrite Hreg; lia|].
  pose proof (setitem_length _ _ _ _ Hw1) as Hlen1.
  pose proof (getitem_setitem_eq _ _ _ _ Hw1) as Hr1.
  set (sp' := if decide (py_index 8 r = py_index 8 SP) then value else sp).
  assert (Hsp1 : getitem rs1 SP = Ok sp').
  { unfold sp'. case_decide as Hidx.
    - unfold getitem in *. rewrite Hlen1, Hreg in *. by rewrite <- Hidx.
    - rewrite (getitem_setitem_other _ _ _ _ Hw1); [done|].
      rewrite Hreg. congruence. }
  destruct (setitem_total rs1 SP (sp' + 1)) as [rs2 Hw2];
    [by eapply getitem_range|].
  pose proof (getitem_setitem_eq _ _ _ _ Hw2) as Hsp2.
  erewrite step_dispatch by (first [eassumption|reflexivity]).
  cbn [invoke]. erewrite pop_eq by eassumption.
  eexists. split; [reflexivity|]. cbn.
  split_and!; try done.
  - intros Hne. unfold sp' in *. rewrite decide_False in * by done.
    split; [|done].
    rewrite (getitem_setitem_other _ _ _ _ Hw2); [done|].
    by rewrite Hlen1, Hreg.
  - intros Heq. unfold sp' in *. by rewrite decide_True in * by done.
  - intros j Hj1 Hj2.
    rewrite (getitem_setitem_other _ _ _ _ Hw2) by (by rewrite Hlen1, Hreg).
    eapply getitem_setitem_other; [done|]. by rewrite Hreg.
Qed.

Lemma pop_spec_witness :
  let s := (boot [POP; 7]).2 in
  ∃ s', step s = (Ok tt, s') ∧ getitem (reg s') SP = Ok (0 + 1).
Proof.
  intros s.
  destruct (pop_spec s 7 255 0) as (s' & Hs & _ & Hsp & _);
    [split; reflexivity|reflexivity..|lia|].
  exists s'. split; [done|]. by apply Hsp.
Defined.

(** X17. There is no empty-stack check.  RET succeeds exactly when SP is a
    valid index of memory: it then sets PC to the cell SP names, whatever
    that cell holds, and increments SP, and otherwise it raises [IndexError]
    and leaves the machine as it was.  POP with SP outside memory likewise
    raises [IndexError] and leaves the machine as it was. *)
Theorem pop_ret_unguarded (s : CPU) (sp : Z) :
  wf s →
  getitem (reg s) SP = Ok sp →
  (getitem (ram s) (PC s) = Ok RET →
     (-256 ≤ sp < 256 →
        ∃ s', step s = (Ok tt, s') ∧
          getitem (ram s) sp = Ok (PC s') ∧
          getitem (reg s') SP = Ok (sp + 1) ∧
          (∀ j, py_index 8 j ≠ py_index 8 SP →
                getitem (reg s') j = getitem (reg s) j) ∧
          ram s' = ram s) ∧
     (¬ (-256 ≤ sp < 256) → step s = (Raise IndexError, s))) ∧
  (getitem (ram s) (PC s) = Ok POP →
     ¬ (-256 ≤ sp < 256) → step s = (Raise IndexError, s)).
Proof.
  intros [Hram Hreg] Hsp.
  assert (Hcell : ¬ (-256 ≤ sp < 256) →
                  ram_read sp s = (Raise IndexError, s)).
  { intros Hbad. apply ram_read_Raise, getitem_out_of_range.
    by rewrite Hram. }
  split; intros Hop;
    erewrite step_dispatch by (first [eassumption|reflexivity]);
    cbn [invoke]; [split|].
  - intros Hin.
    destruct (getitem_total (ram s) sp) as [ra Hra]; [by rewrite Hram|].
    destruct (setitem_total (reg s) SP (sp + 1)) as [rs1 Hw];
      [by eapply getitem_range|].
    erewrite ret_eq by eassumption.
    eexists. split; [reflexivity|]. cbn.
    split; [done|]. split; [by eapply getitem_setitem_eq|]. split; [|done].
    intros j Hj. eapply getitem_setitem_other; [done|]. by rewrite Hreg.
  - intros Hbad. unfold ret. msteps.
    by erewrite bind_Raise by (by apply Hcell).
  - intros Hbad. unfold pop. msteps.
    by erewrite bind_Raise by (by apply Hcell).
Qed.

Lemma pop_ret_unguarded_witness :
  let s0 := (boot [RET]).2 in
  let s1 := (run 1 (boot [POP; 0; POP; 0]).2).2 in
  let s2 := set_reg (reg s1) (boot [RET]).2 in
  (∃ s', step s0 = (Ok tt, s') ∧ getitem (ram s0) 255 = Ok (PC s') ∧
         getitem (reg s') SP = Ok (255 + 1)) ∧
  step s1 = (Raise IndexError, s1) ∧ step s2 = (Raise IndexError, s2).
Proof.
  intros s0 s1 s2. split; [|split].
  - destruct (proj1 (proj1 (pop_ret_unguarded s0 255
                ltac:(split; reflexivity) eq_refl) eq_refl))
      as (s' & Hs & Hpc & Hsp & _); [lia|].
    exists s'. done.
  - apply (proj2 (pop_ret_unguarded s1 256 ltac:(split; reflexivity)
                    eq_refl)); [reflexivity|lia].
  - apply (proj2 (proj1 (pop_ret_unguarded s2 256 ltac:(split; reflexivity)
                    eq_refl) eq_refl)). lia.
Defined.

(** ** Memory access *)

(** X18. [ram_write] then [ram_read] round trip: a write at a valid address
    succeeds and changes memory only, a read at that address then returns
    the written value, and a read at any address naming another cell returns
    what it returned before. *)
Theorem ram_write_read (s : CPU) (a v : Z) :
  - Z.of_nat (length (ram s)) ≤ a < Z.of_nat (length (ram s)) →
  ∃ m', ram_write a v s = (Ok tt, set_ram m' s) ∧
    ram_read a (set_ram m' s) = (Ok v, set_ram m' s) ∧
    ∀ b, py_index (length (ram s)) b ≠ py_index (length (ram s)) a →
         ram_read b (set_ram m' s) = (getitem (ram s) b, set_ram m' s).
Proof.
  intros Ha. destruct (setitem_total (ram s) a v) as [m' Hw]; [done|].
  exists m'. split; [by apply ram_write_Ok|]. split.
  - apply ram_read_Ok. cbn. by eapply getitem_setitem_eq.
  - intros b Hb. unfold ram_read, gets, lift, mbind, M_bind. cbn.
    by rewrite (getitem_setitem_other _ _ _ _ Hw).
Qed.

Lemma ram_write_read_witness :
  ∃ m', ram_write (-1) 9 init = (Ok tt, set_ram m' init) ∧
        ram_read (-1) (set_ram m' init) = (Ok 9, set_ram m' init).
Proof.
  destruct (ram_write_read init (-1) 9) as (m' & Hw & Hr & _);
    [cbn; lia|].
  exists m'. done.
Defined.

(** X19. Memory accesses follow host indexing: an address [a - 256] with
    [0 <= a < 256] reads and writes the same cell as [a], and an address
    outside [-256, 256) makes both [ram_read] and [ram_write] raise
    [IndexError] and leave the machine untouched. *)
Theorem ram_address_range (s : CPU) (a v : Z) :
  wf s →
  (0 ≤ a < 256 →
     ram_read (a - 256) s = ram_read a s ∧
     ram_write (a - 256) v s = ram_write a v s) ∧
  (¬ (-256 ≤ a < 256) →
     ram_read a s = (Raise IndexError, s) ∧
     ram_write a v s = (Raise IndexError, s)).
Proof.
  intros [Hram _]. split.
  - intros Ha.
    assert (Hidx : py_index (length (ram s)) (a - 256)
                   = py_index (length (ram s)) a).
    { unfold py_index. rewrite Hram.
      rewrite decide_False by lia. rewrite decide_True by lia.
      rewrite decide_True by lia. f_equal. lia. }
    unfold ram_read, ram_write, gets, lift, mbind, M_bind, getitem, setitem.
    by rewrite Hidx.
  - intros Ha. split.
    + apply ram_read_Raise, getitem_out_of_range. by rewrite Hram.
    + unfold ram_write, gets, lift, mbind, M_bind.
      rewrite setitem_out_of_range; [done|]. by rewrite Hram.
Qed.

Lemma ram_address_range_witness :
  ram_read (255 - 256) init = ram_read 255 init ∧
  ram_read 256 init = (Raise IndexError, init).
Proof.
  destruct (ram_address_range init 255 0 wf_init) as [H1 _].
  destruct (ram_address_range init 256 0 wf_init) as [_ H2].
  split; [apply H1; lia|apply H2; lia].
Defined.

(** ** Printing *)

(** X20. PRN of a register whose value has at most 4300 decimal digits
    (is below [10 ^ 4300] in absolute value) appends exactly one line, the decimal numeral of that value, advances PC
    by 2 and changes nothing else; for a longer value it raises [ValueError],
    prints nothing and leaves the machine as it was.  Two values print the
    same line only if they are equal. *)
Theorem prn_prints_register (s : CPU) (r v : Z) :
  getitem (ram s) (PC s) = Ok PRN →
  getitem (ram s) (PC s + 1) = Ok r →
  getitem (reg s) r = Ok v →
  (Z.abs v < 10 ^ int_max_str_digits →
     ∃ s', step s = (Ok tt, s') ∧
       stdout s' = stdout s ++ [pretty v] ∧ PC s' = PC s + 2 ∧
       ram s' = ram s ∧ reg s' = reg s ∧ FL s' = FL s ∧
       running s' = running s) ∧
  (¬ Z.abs v < 10 ^ int_max_str_digits →
     step s = (Raise ValueError, s)) ∧
  (∀ w : Z, pretty w = pretty v → w = v).
Proof.
  intros Hop Hr Hv.
  erewrite step_dispatch by (first [eassumption|reflexivity]).
  cbn [invoke]. split; [|split].
  - intros Hd. erewrite prn_eq by eassumption.
    eexists. split; [reflexivity|]. done.
  - intros Hd. unfold prn, gets. msteps.
    by erewrite bind_Raise by (by apply str_Raise).
  - intros w Hw. by apply (inj pretty) in Hw.
Qed.

Lemma prn_prints_register_witness :
  let s := set_reg [-5; 10 ^ 4300; 0; 0; 0; 0; 0; 255] (boot [PRN; 0]).2 in
  let s' := set_ram (ram (boot [PRN; 1]).2) s in
  (∃ s1, step s = (Ok tt, s1) ∧ stdout s1 = stdout s ++ ["-5"] ∧
         PC s1 = PC s + 2) ∧
  step s' = (Raise ValueError, s').
Proof.
  intros s s'. split.
  - destruct (proj1 (prn_prints_register s 0 (-5) eq_refl eq_refl eq_refl))
      as (s1 & Hs & Hout & Hpc & _).
    { vm_compute. reflexivity. }
    exists s1. done.
  - apply (proj1 (proj2 (prn_prints_register s' 1 (10 ^ 4300)
                           eq_refl eq_refl eq_refl))).
    rewrite Z.abs_eq by (apply Z.pow_nonneg; lia). apply Z.lt_irrefl.
Defined.

(** ** The debugging trace *)

Lemma trace_registers_Ok (indices : list Z) (s : CPU) :
  (∀ i, i ∈ indices →
     - Z.of_nat (length (reg s)) ≤ i < Z.of_nat (length (reg s))) →
  ∃ text, trace_registers indices s = (Ok text, s).
Proof.
  induction indices as [|i rest IH]; intros Hin; cbn [trace_registers].
  - by eexists.
  - destruct (getitem_total (reg s) i) as [v Hv]; [apply Hin; left|].
    destruct IH as [text Ht]; [intros j Hj; apply Hin; by right|].
    eexists. erewrite bind_Ok by (by apply reg_read_Ok).
    erewrite bind_Ok by exact Ht. reflexivity.
Qed.

(** X21. [trace] never changes the machine: when PC, PC + 1 and PC + 2 are
    all valid indices of memory it prints one line and leaves every other
    attribute alone, and otherwise it raises [IndexError] before printing
    anything; so a trace at PC 254 or 255 fails even where the instruction
    at PC could run. *)
Theorem trace_window (s : CPU) :
  wf s →
  (-256 ≤ PC s ∧ PC s + 2 < 256 →
     ∃ line, trace s = (Ok tt, set_stdout (stdout s ++ [line]) s)) ∧
  (¬ (-256 ≤ PC s ∧ PC s + 2 < 256) → trace s = (Raise IndexError, s)).
Proof.
  intros [Hram Hreg]. split.
  - intros Hpc.
    destruct (getitem_total (ram s) (PC s)) as [b0 H0]; [rewrite Hram; lia|].
    destruct (getitem_total (ram s) (PC s + 1)) as [b1 H1];
      [rewrite Hram; lia|].
    destruct (getitem_total (ram s) (PC s + 2)) as [b2 H2];
      [rewrite Hram; lia|].
    destruct (trace_registers_Ok (seqZ 0 8) s) as [text Ht].
    { intros i Hi%elem_of_seqZ. rewrite Hreg. lia. }
    eexists. unfold trace, gets, print, modify. msteps.
    erewrite bind_Ok by exact Ht. reflexivity.
  - intros Hpc. unfold trace, gets.
    destruct (decide (-256 ≤ PC s < 256)) as [Hin0|Hout0]; cycle 1.
    { erewrite bind_Ok by reflexivity. erewrite bind_Raise; [reflexivity|].
      apply ram_read_Raise, getitem_out_of_range. by rewrite Hram. }
    destruct (getitem_total (ram s) (PC s)) as [b0 H0]; [by rewrite Hram|].
    destruct (decide (-256 ≤ PC s + 1 < 256)) as [Hin1|Hout1]; cycle 1.
    { msteps. erewrite bind_Raise; [reflexivity|].
      apply ram_read_Raise, getitem_out_of_range. by rewrite Hram. }
    destruct (getitem_total (ram s) (PC s + 1)) as [b1 H1];
      [by rewrite Hram|].
    msteps. erewrite bind_Raise; [reflexivity|].
    apply ram_read_Raise, getitem_out_of_range. rewrite Hram. lia.
Qed.

Lemma trace_window_witness :
  let s := set_PC 254 (boot [LDI; 0; 171]).2 in
  (∃ line, trace (set_PC 0 s) =
             (Ok tt, set_stdout (stdout s ++ [line]) (set_PC 0 s))) ∧
  trace s = (Raise IndexError, s).
Proof.
  intros s. split.
  - apply (proj1 (trace_window (set_PC 0 s) ltac:(split; reflexivity))).
    cbn. lia.
  - apply (proj2 (trace_window s ltac:(split; reflexivity))). cbn. lia.
Defined.

(** The line a trace prints for the machine right after [LDI R0,171]. *)
Example trace_line :
  stdout (trace (run 1 (boot [LDI; 0; 171]).2).2).2 =
    ["TRACE: 03 | 00 00 00 | AB 00 00 00 00 00 00 FF"].
Proof. vm_compute. reflexivity. Qed.

Example format_02X_values :
  format_02X 0 = "00" ∧ format_02X 10 = "0A" ∧ format_02X 255 = "FF" ∧
  format_02X 256 = "100" ∧ format_02X (-1) = "-1" ∧ format_02X (-255) = "-FF".
Proof. vm_compute. done. Qed.
